(** * Campaign service: a shallow embedding of [main.py]

    The service keeps one table of campaigns in an SQLite file and serves
    five routes over it.  The embedding follows the module top to bottom:
    the two models, the table behind the session, the handler monad
    (world passing with exceptions), the lifespan hook and the five
    handlers.  Theorems come after the definitions.

    What lies outside [main.py] is modelled by its contract:
    - the table is the rowid-keyed storage of SQLite: rows are kept and
      scanned in rowid order, and a row inserted without a key gets the
      largest rowid in use plus one, or 1 in an empty table (the key
      column is declared [primary_key=True] and nothing more);
    - a text or integer column is read back as it was written; a
      [DateTime] column of SQLite keeps the date and time fields of a
      value and drops its UTC offset, so what is read back is naive;
    - a statement parameter is a 64-bit integer: an id outside that range
      cannot be bound and the call raises [OverflowError];
    - the wall clock only moves forward;
    - storage failures (I/O, a full table) are not modelled. *)

From stdpp Require Import base gmap strings list.
From Stdlib Require Import ZArith Sorted.

Local Open Scope Z_scope.

(** ** Dates and times *)

(** A [datetime] value: the wall-clock fields, as microseconds, and the
    UTC offset of an aware value ([None] for a naive one). *)
Record datetime := mkDatetime {
  wall : Z;
  tzinfo : option Z
}.

(** [timezone.utc]. *)
Definition timezone_utc : Z := 0.

(** What a [DateTime] column of the table keeps of a value: the date and
    time fields, without the offset. *)
Definition to_column (d : datetime) : datetime :=
  {| wall := wall d; tzinfo := None |}.

(** The range of an integer that can be bound to a statement. *)
Definition in_int64 (n : Z) : bool :=
  (- 2 ^ 63 <=? n) && (n <=? 2 ^ 63 - 1).

(** ** The models (lines 10-21) *)

Record Campaign := mkCampaign {
  campaign_id : option Z;
  name : string;
  due_date : option datetime;
  created_at : datetime
}.

Record CampaignCreate := mkCampaignCreate {
  create_name : string;
  create_due_date : option datetime
}.

(** The response envelope (lines 70-71). *)
Record Response (T : Type) := mkResponse { data : T }.
Arguments mkResponse {T} _.
Arguments data {T} _.

(** ** The table *)

(** A stored row: the key column is [NOT NULL] in the table. *)
Record Row := mkRow {
  rowid : Z;
  col_name : string;
  col_due_date : option datetime;
  col_created_at : datetime
}.

(** Loading a row into a [Campaign] object. *)
Definition of_row (r : Row) : Campaign :=
  {| campaign_id := Some (rowid r);
     name := col_name r;
     due_date := col_due_date r;
     created_at := col_created_at r |}.

(** [SELECT ... WHERE campaign_id = id]. *)
Fixpoint table_get (id : Z) (t : list Row) : option Row :=
  match t with
  | [] => None
  | r :: t' => if rowid r =? id then Some r else table_get id t'
  end.

(** The largest rowid in use. *)
Fixpoint max_rowid (t : list Row) : option Z :=
  match t with
  | [] => None
  | r :: t' =>
      Some (match max_rowid t' with
            | None => rowid r
            | Some m => Z.max (rowid r) m
            end)
  end.

(** The key given to a row inserted without one: one more than the
    largest key in use, 1 in an empty table.  Keys that were in use
    earlier are not remembered (the column is not [AUTOINCREMENT]). *)
Definition new_rowid (t : list Row) : Z :=
  match max_rowid t with
  | None => 1
  | Some m => m + 1
  end.

(** Insertion keeps the rows in rowid order. *)
Fixpoint table_insert (r : Row) (t : list Row) : list Row :=
  match t with
  | [] => [r]
  | x :: t' =>
      if rowid r <? rowid x then r :: x :: t' else x :: table_insert r t'
  end.

(** [UPDATE ... SET name, due_date WHERE campaign_id = id]; the
    [due_date] column keeps no offset. *)
Fixpoint table_update (id : Z) (n : string) (d : option datetime)
    (t : list Row) : list Row :=
  match t with
  | [] => []
  | r :: t' =>
      (if rowid r =? id
       then {| rowid := rowid r; col_name := n;
               col_due_date := to_column <$> d;
               col_created_at := col_created_at r |}
       else r) :: table_update id n d t'
  end.

(** [DELETE ... WHERE campaign_id = id]. *)
Fixpoint table_delete (id : Z) (t : list Row) : list Row :=
  match t with
  | [] => []
  | r :: t' =>
      if rowid r =? id then table_delete id t' else r :: table_delete id t'
  end.

(** Rowids strictly increasing along the table and all above [lo]. *)
Fixpoint above (lo : Z) (t : list Row) : bool :=
  match t with
  | [] => true
  | r :: t' => (lo <? rowid r) && above (rowid r) t'
  end.

(** A table as the service builds it: keys positive, unique, in order. *)
Definition wf_table (t : list Row) : Prop := above 0 t = true.

(** ** The world a request runs in *)

Record World := mkWorld {
  db : list Row;          (* the committed table *)
  clock : Z;              (* UTC now, microseconds *)
  ticks : list N;         (* time that passes before each later reading *)
  utc_offset : Z          (* local zone of the host *)
}.

Definition with_db (t : list Row) (w : World) : World :=
  {| db := t; clock := clock w; ticks := ticks w;
     utc_offset := utc_offset w |}.

Inductive Exception :=
| HTTPException (status_code : Z) (detail : string)
| RequestValidationError
| IntegrityError
| InvalidRequestError
| OverflowError.

(** [http.HTTPStatus(code).phrase], for the codes of client and server
    errors a handler commonly raises. *)
Definition HTTPStatus_phrase (code : Z) : string :=
  if code =? 400 then "Bad Request"
  else if code =? 401 then "Unauthorized"
  else if code =? 403 then "Forbidden"
  else if code =? 404 then "Not Found"
  else if code =? 405 then "Method Not Allowed"
  else if code =? 409 then "Conflict"
  else if code =? 410 then "Gone"
  else if code =? 422 then "Unprocessable Entity"
  else if code =? 500 then "Internal Server Error"
  else if code =? 503 then "Service Unavailable"
  else "".

(** [HTTPException(status_code=..., detail=...)]: a detail that is not
    given is the phrase of the status code. *)
Definition HTTPException_init (status_code : Z) (detail : option string)
    : Exception :=
  HTTPException status_code
    match detail with
    | Some d => d
    | None => HTTPStatus_phrase status_code
    end.

(** ** Handlers: world passing with exceptions *)

Definition Handler (A : Type) : Type := World -> (Exception + A) * World.

Definition ret {A} (a : A) : Handler A := fun w => (inr a, w).

Definition raise {A} (e : Exception) : Handler A := fun w => (inl e, w).

Definition bind {A B} (m : Handler A) (k : A -> Handler B) : Handler B :=
  fun w =>
    match m w with
    | (inl e, w') => (inl e, w')
    | (inr a, w') => k a w'
    end.

Notation "'do' x <- m ; k" := (bind m (fun x => k))
  (at level 10, x name, m at level 100, k at level 200).

(** Time passes: the next tick is added to the clock. *)
Definition advance (w : World) : World :=
  match ticks w with
  | [] => w
  | d :: ds =>
      {| db := db w; clock := clock w + Z.of_N d; ticks := ds;
         utc_offset := utc_offset w |}
  end.

(** [datetime.now(tz)]: the clock is read after the next tick has passed;
    without [tz] the value is naive local time. *)
Definition datetime_now (tz : option Z) : Handler datetime :=
  fun w =>
    let w' := advance w in
    (inr {| wall := clock w' + match tz with
                               | None => utc_offset w'
                               | Some off => off
                               end;
            tzinfo := tz |},
     w').

(** ** The session *)

(** [session.exec(select(Campaign)).all()]: a scan of the table. *)
Definition session_exec_select_all : Handler (list Campaign) :=
  fun w => (inr (map of_row (db w)), w).

(** [session.exec(select(Campaign)).first()]. *)
Definition session_exec_select_first : Handler (option Campaign) :=
  fun w => (inr (head (map of_row (db w))), w).

(** [session.get(Campaign, id)].  The id is bound to the [SELECT] as a
    64-bit integer, and an id outside that range raises [OverflowError].
    The keys of a table are 64-bit integers, so a row that is found has
    an id that can be bound: the range decides only where no row is
    found. *)
Definition session_get (id : Z) : Handler (option Campaign) :=
  fun w =>
    match table_get id (db w) with
    | Some r => (inr (Some (of_row r)), w)
    | None =>
        if in_int64 id then (inr None, w) else (inl OverflowError, w)
    end.

(** One pending object written by [INSERT]; the object comes back with
    its key.  The two [DateTime] columns keep no offset. *)
Definition insert_object (obj : Campaign) : Handler Campaign :=
  fun w =>
    let key := match campaign_id obj with
               | Some k => k
               | None => new_rowid (db w)
               end in
    match table_get key (db w) with
    | Some _ => (inl IntegrityError, w)
    | None =>
        (inr {| campaign_id := Some key; name := name obj;
                due_date := due_date obj; created_at := created_at obj |},
         with_db (table_insert
                    {| rowid := key; col_name := name obj;
                       col_due_date := to_column <$> due_date obj;
                       col_created_at := to_column (created_at obj) |}
                    (db w)) w)
    end.

Fixpoint insert_objects (objs : list Campaign) : Handler (list Campaign) :=
  match objs with
  | [] => ret []
  | obj :: objs' =>
      do obj <- insert_object obj;
      do objs' <- insert_objects objs';
      ret (obj :: objs')
  end.

(** [session.add_all(objs); session.commit()]: the pending objects are
    written in order in one transaction, which is rolled back as a whole
    if one of them fails. *)
Definition session_add_all_commit (objs : list Campaign)
    : Handler (list Campaign) :=
  fun w =>
    match insert_objects objs w with
    | (inl e, w') => (inl e, with_db (db w) w')
    | ok => ok
    end.

(** [session.add(obj); session.commit()] for a new object. *)
Definition session_add_commit (obj : Campaign) : Handler Campaign :=
  fun w =>
    match insert_object obj w with
    | (inl e, w') => (inl e, with_db (db w) w')
    | ok => ok
    end.

(** [session.add(obj); session.commit()] for a loaded object whose [name]
    and [due_date] were assigned: an [UPDATE] of those two columns. *)
Definition session_commit_modified (obj : Campaign) : Handler unit :=
  fun w =>
    match campaign_id obj with
    | Some key =>
        (inr tt,
         with_db (table_update key (name obj) (due_date obj) (db w)) w)
    | None => (inl InvalidRequestError, w)
    end.

(** [session.delete(obj); session.commit()]. *)
Definition session_delete_commit (obj : Campaign) : Handler unit :=
  fun w =>
    match campaign_id obj with
    | Some key => (inr tt, with_db (table_delete key (db w)) w)
    | None => (inl InvalidRequestError, w)
    end.

(** [session.refresh(obj)]: the object is loaded again by its key. *)
Definition session_refresh (obj : Campaign) : Handler Campaign :=
  fun w =>
    match campaign_id obj ≫= λ key, table_get key (db w) with
    | Some r => (inr (of_row r), w)
    | None => (inl InvalidRequestError, w)
    end.

(** ** Building a [Campaign] *)

(** The constructor with [name] and [due_date] given: [campaign_id] takes
    its default [None] and [created_at] its default factory,
    [datetime.now(timezone.utc)] (lines 11-16). *)
Definition Campaign_new (n : string) (d : option datetime)
    : Handler Campaign :=
  do now <- datetime_now (Some timezone_utc);
  ret {| campaign_id := None; name := n; due_date := d;
         created_at := now |}.

(** [Campaign.model_validate(campaign)] on a [CampaignCreate]: the two
    attributes it has are read, the other two fields take their
    defaults. *)
Definition Campaign_model_validate (campaign : CampaignCreate)
    : Handler Campaign :=
  Campaign_new (create_name campaign) (create_due_date campaign).

(** ** Startup (lines 31-56) *)

(** [CREATE TABLE IF NOT EXISTS]: the table is there from then on, empty
    if it was not there before. *)
Definition create_db_and_tables : Handler unit := ret tt.

Definition lifespan : Handler unit :=
  do _ <- create_db_and_tables;
  do first <- session_exec_select_first;
  match first with
  | Some _ => ret tt
  | None =>
      do due1 <- datetime_now None;
      do c1 <- Campaign_new "Summer Launch" (Some due1);
      do due2 <- datetime_now None;
      do c2 <- Campaign_new "Black Friday" (Some due2);
      do _ <- session_add_all_commit [c1; c2];
      ret tt
  end.

(** ** The handlers (lines 74-116) *)

Definition read_campaigns : Handler (Response (list Campaign)) :=
  do data <- session_exec_select_all;
  ret {| data := data |}.

Definition read_campaign (id : Z) : Handler (Response Campaign) :=
  do data <- session_get id;
  match data with
  | None => raise (HTTPException_init 404 None)
  | Some data => ret {| data := data |}
  end.

Definition create_campaign (campaign : CampaignCreate)
    : Handler (Response Campaign) :=
  do db_campaign <- Campaign_model_validate campaign;
  do db_campaign <- session_add_commit db_campaign;
  do db_campaign <- session_refresh db_campaign;
  ret {| data := db_campaign |}.

Definition update_campaign (id : Z) (campaign : CampaignCreate)
    : Handler (Response Campaign) :=
  do data <- session_get id;
  match data with
  | None => raise (HTTPException_init 404 None)
  | Some data =>
      let data := {| campaign_id := campaign_id data;
                     name := create_name campaign;
                     due_date := create_due_date campaign;
                     created_at := created_at data |} in
      do _ <- session_commit_modified data;
      do data <- session_refresh data;
      ret {| data := data |}
  end.

Definition delete_campaign (id : Z) : Handler unit :=
  do data <- session_get id;
  match data with
  | None => raise (HTTPException_init 404 None)
  | Some data => session_delete_commit data
  end.

(** ** Routes *)

(** What a route answers: the handler's value under the status code of
    its decorator, or the exception the handler raised. *)
Inductive Reply (T : Type) :=
| Returned (status_code : Z) (content : T)
| Raised (e : Exception).
Arguments Returned {T} _ _.
Arguments Raised {T} _.

Definition route {T} (status_code : Z) (h : Handler T)
    : World -> Reply T * World :=
  fun w =>
    match h w with
    | (inr v, w') => (Returned status_code v, w')
    | (inl e, w') => (Raised e, w')
    end.

Definition GET_campaigns := route 200 read_campaigns.
Definition GET_campaign (id : Z) := route 200 (read_campaign id).
Definition POST_campaigns (campaign : CampaignCreate) :=
  route 201 (create_campaign campaign).
Definition PUT_campaign (id : Z) (campaign : CampaignCreate) :=
  route 200 (update_campaign id campaign).
Definition DELETE_campaign (id : Z) := route 204 (delete_campaign id).

(** The answer of a route with no row for the id: the exception of
    [HTTPException(status_code=404)]. *)
Definition NotFound {T} : Reply T := Raised (HTTPException 404 "Not Found").

(** The answer of a get, update or delete that finds no row for [id]. *)
Definition absent_reply {T} (id : Z) : Reply T :=
  if in_int64 id then NotFound else Raised OverflowError.

(** ** Request bodies *)

#[local] Set Warnings "-register-all".

Inductive json :=
| JNull
| JBool (b : bool)
| JNumber (n : Z)
| JString (s : string)
| JArray (items : list json)
| JObject (members : list (string * json)).

(** The response FastAPI makes of an [HTTPException]: its status code,
    and the body [{"detail": ...}] unless the status code allows none. *)
Definition is_body_allowed_for_status_code (status_code : Z) : bool :=
  negb ((status_code <? 200) || (status_code =? 204)
        || (status_code =? 205) || (status_code =? 304)).

Definition http_exception_handler (status_code : Z) (detail : string)
    : Z * option json :=
  if is_body_allowed_for_status_code status_code
  then (status_code, Some (JObject [("detail"%string, JString detail)]))
  else (status_code, None).

(** The status code and body of a reply that is an [HTTPException]. *)
Definition error_response {T} (r : Reply T) : option (Z * option json) :=
  match r with
  | Raised (HTTPException status_code detail) =>
      Some (http_exception_handler status_code detail)
  | _ => None
  end.

Section Validation.

(** The validator of a [datetime] field, which is pydantic's. *)
Variable datetime_validate : json -> option datetime.

(** A body validated as [CampaignCreate] (lines 19-21): [name] is a
    required string, [due_date] a datetime or null with default
    [None]; members the model does not declare are ignored. *)
Definition CampaignCreate_validate (body : gmap string json)
    : Exception + CampaignCreate :=
  match body !! "name"%string with
  | Some (JString n) =>
      match body !! "due_date"%string with
      | None | Some JNull =>
          inr {| create_name := n; create_due_date := None |}
      | Some j =>
          match datetime_validate j with
          | Some d =>
              inr {| create_name := n; create_due_date := Some d |}
          | None => inl RequestValidationError
          end
      end
  | _ => inl RequestValidationError
  end.

(** [POST /campaigns] and [PUT /campaigns/{id}] from the body. *)
Definition POST_campaigns_body (body : gmap string json)
    : World -> Reply (Response Campaign) * World :=
  match CampaignCreate_validate body with
  | inl e => fun w => (Raised e, w)
  | inr campaign => POST_campaigns campaign
  end.

Definition PUT_campaign_body (id : Z) (body : gmap string json)
    : World -> Reply (Response Campaign) * World :=
  match CampaignCreate_validate body with
  | inl e => fun w => (Raised e, w)
  | inr campaign => PUT_campaign id campaign
  end.

End Validation.

(** ** Sequences of requests *)

Inductive Request :=
| ReqList
| ReqGet (id : Z)
| ReqCreate (campaign : CampaignCreate)
| ReqUpdate (id : Z) (campaign : CampaignCreate)
| ReqDelete (id : Z).

Inductive Answer :=
| AList (r : Reply (Response (list Campaign)))
| AOne (r : Reply (Response Campaign))
| ANone (r : Reply unit).

Definition serve (rq : Request) (w : World) : Answer * World :=
  match rq with
  | ReqList => let '(r, w') := GET_campaigns w in (AList r, w')
  | ReqGet id => let '(r, w') := GET_campaign id w in (AOne r, w')
  | ReqCreate c => let '(r, w') := POST_campaigns c w in (AOne r, w')
  | ReqUpdate id c => let '(r, w') := PUT_campaign id c w in (AOne r, w')
  | ReqDelete id => let '(r, w') := DELETE_campaign id w in (ANone r, w')
  end.

Fixpoint serve_all (rqs : list Request) (w : World)
    : list Answer * World :=
  match rqs with
  | [] => ([], w)
  | rq :: rqs' =>
      let '(a, w1) := serve rq w in
      let '(answers, w2) := serve_all rqs' w1 in
      (a :: answers, w2)
  end.

(** The rows a listing shows in world [w]. *)
Definition listing (w : World) : list Campaign :=
  match GET_campaigns w with
  | (Returned _ r, _) => data r
  | (Raised _, _) => []
  end.

(** The id a request is given for a new row, if it creates one. *)
Definition assigned (rq : Request) (w : World) : option Z :=
  match rq with
  | ReqCreate c =>
      match POST_campaigns c w with
      | (Returned _ r, _) => campaign_id (data r)
      | (Raised _, _) => None
      end
  | _ => None
  end.

(** ** Requests and restarts *)

(** What happens to a service over time: it serves a request, or it is
    started again on the table it left. *)
Inductive Event :=
| Serve (rq : Request)
| Restart.

Definition step (ev : Event) (w : World) : World :=
  match ev with
  | Serve rq => (serve rq w).2
  | Restart => (lifespan w).2
  end.

Fixpoint run (evs : list Event) (w : World) : World :=
  match evs with
  | [] => w
  | ev :: evs' => run evs' (step ev w)
  end.

(** The ids under which an event writes new rows: the id a create is
    given, and the ids of the rows a start writes into an empty table. *)
Definition written (ev : Event) (w : World) : list Z :=
  match ev with
  | Serve rq =>
      match assigned rq w with
      | Some k => [k]
      | None => []
      end
  | Restart =>
      match db w with
      | [] => map rowid (db (lifespan w).2)
      | _ :: _ => []
      end
  end.

(** No event of the sequence writes a new row under [id]. *)
Fixpoint never_written (id : Z) (evs : list Event) (w : World) : bool :=
  match evs with
  | [] => true
  | ev :: evs' =>
      negb (bool_decide (id ∈ written ev w))
      && never_written id evs' (step ev w)
  end.

Definition is_create (ev : Event) : bool :=
  match ev with
  | Serve (ReqCreate _) => true
  | _ => false
  end.

(** ** Insertion order, as the specification words it

    The sequence of rows ordered by insertion: a created row goes to the
    end, an updated row stays where it is, a deleted row leaves. *)

Definition has_id (id : Z) (c : Campaign) : bool :=
  bool_decide (campaign_id c = Some id).

Definition insertion_order_step (rq : Request) (a : Answer)
    (rows : list Campaign) : list Campaign :=
  match rq, a with
  | ReqCreate _, AOne (Returned _ r) => rows ++ [data r]
  | ReqUpdate id _, AOne (Returned _ r) =>
      map (fun c => if has_id id c then data r else c) rows
  | ReqDelete id, ANone (Returned _ _) =>
      List.filter (fun c => negb (has_id id c)) rows
  | _, _ => rows
  end.

Fixpoint insertion_order (rqs : list Request) (w : World)
    (rows : list Campaign) : list Campaign :=
  match rqs with
  | [] => rows
  | rq :: rqs' =>
      let '(a, w') := serve rq w in
      insertion_order rqs' w' (insertion_order_step rq a rows)
  end.

(** ** What a create and an update write *)

(** The row a create request writes in world [w]. *)
Definition created_row (c : CampaignCreate) (w : World) : Row :=
  {| rowid := new_rowid (db w);
     col_name := create_name c;
     col_due_date := to_column <$> create_due_date c;
     col_created_at := {| wall := clock (advance w) + timezone_utc;
                          tzinfo := None |} |}.

(** The row an update request leaves in place of [r]. *)
Definition updated_row (c : CampaignCreate) (r : Row) : Row :=
  {| rowid := rowid r;
     col_name := create_name c;
     col_due_date := to_column <$> create_due_date c;
     col_created_at := col_created_at r |}.

(** ** Reuse of ids

    Some create of the sequence is given the id of a row that a delete,
    earlier in the sequence or among [deleted], has removed. *)
Fixpoint reuses_deleted (deleted : list Z) (rqs : list Request) (w : World)
    : bool :=
  match rqs with
  | [] => false
  | rq :: rqs' =>
      let '(a, w') := serve rq w in
      match assigned rq w with
      | Some k => bool_decide (k ∈ deleted)
      | None => false
      end
      || reuses_deleted
           match rq, a with
           | ReqDelete id, ANone (Returned _ _) => id :: deleted
           | _, _ => deleted
           end
           rqs' w'
  end.

(** ** Sample values *)

Definition world0 : World :=
  {| db := []; clock := 1000; ticks := [5; 0; 7; 2; 1; 4; 3; 6]%N;
     utc_offset := 3600 |}.

Definition spring_sale : CampaignCreate :=
  {| create_name := "Spring Sale";
     create_due_date := Some {| wall := 1740787200000000;
                                tzinfo := Some 0 |} |}.

Definition renamed : CampaignCreate :=
  {| create_name := "Renamed"; create_due_date := None |}.

Definition sample_datetime_validate (j : json) : option datetime :=
  match j with
  | JNumber n => Some {| wall := n * 1000000; tzinfo := Some 0 |}
  | _ => None
  end.

Definition seeded : World := (lifespan world0).2.

Definition summer_launch_row : Row :=
  {| rowid := 1; col_name := "Summer Launch";
     col_due_date := Some {| wall := 4605; tzinfo := None |};
     col_created_at := {| wall := 1005; tzinfo := None |} |}.

Definition after_delete : World := (DELETE_campaign 1 seeded).2.

Definition later_requests : list Request :=
  [ReqCreate spring_sale; ReqDelete 1; ReqGet 1; ReqUpdate 1 renamed;
   ReqDelete 3; ReqCreate renamed; ReqDelete 1].

Definition later_events : list Event :=
  [Serve (ReqCreate spring_sale); Serve (ReqDelete 1); Restart;
   Serve (ReqUpdate 1 renamed); Serve (ReqDelete 3);
   Serve (ReqCreate renamed); Serve (ReqDelete 1); Serve (ReqDelete 2);
   Serve (ReqDelete 3)].

(** ** The root route (lines 62-64) *)

Record Message := mkMessage { message : string }.

Definition root : Handler Message := ret {| message := "Hello World" |}.

Definition GET_root := route 200 root.

(** ** What a request touches and what it raises *)

(** The id whose row a request writes, if it writes one. *)
Definition target (rq : Request) (w : World) : option Z :=
  match rq with
  | ReqCreate _ => assigned rq w
  | ReqUpdate id _ => Some id
  | ReqDelete id => Some id
  | _ => None
  end.

(** The exception an answer carries, if it is one. *)
Definition raised (a : Answer) : option Exception :=
  match a with
  | AList (Raised e) | AOne (Raised e) | ANone (Raised e) => Some e
  | _ => None
  end.

(** The ids given to new rows along a sequence of requests. *)
Fixpoint created_ids (rqs : list Request) (w : World) : list Z :=
  match rqs with
  | [] => []
  | rq :: rqs' =>
      match assigned rq w with
      | Some k => k :: created_ids rqs' (serve rq w).2
      | None => created_ids rqs' (serve rq w).2
      end
  end.

Definition is_delete (rq : Request) : bool :=
  match rq with
  | ReqDelete _ => true
  | _ => false
  end.

(** The two rows startup writes into an empty table in world [w]. *)
Definition seed_rows (w : World) : list Row :=
  let w1 := advance w in
  let w2 := advance w1 in
  let w3 := advance w2 in
  let w4 := advance w3 in
  [ {| rowid := 1; col_name := "Summer Launch";
       col_due_date := Some {| wall := clock w1 + utc_offset w1;
                               tzinfo := None |};
       col_created_at := {| wall := clock w2 + timezone_utc;
                            tzinfo := None |} |};
    {| rowid := 2; col_name := "Black Friday";
       col_due_date := Some {| wall := clock w3 + utc_offset w3;
                               tzinfo := None |};
       col_created_at := {| wall := clock w4 + timezone_utc;
                            tzinfo := None |} |} ].

(** * Properties *)

(** ** The table *)

Section TableFacts.

Implicit Types (t : list Row) (r : Row) (id : Z).

Lemma table_get_rowid id t r : table_get id t = Some r -> rowid r = id.
Proof.
  induction t as [|x t IH]; simpl; [discriminate|].
  destruct (rowid x =? id) eqn:E; [|exact IH].
  intros [= <-]. lia.
Qed.

Lemma table_get_None id t :
  table_get id t = None <-> Forall (fun r => rowid r <> id) t.
Proof.
  induction t as [|x t IH]; simpl.
  - split; [constructor|reflexivity].
  - destruct (rowid x =? id) eqn:E.
    + split; [discriminate|]. inversion 1; subst. lia.
    + rewrite IH. split.
      * intros H. constructor; [lia|exact H].
      * inversion 1; assumption.
Qed.

Lemma max_rowid_ge t :
  Forall (fun r => exists m, max_rowid t = Some m /\ rowid r <= m) t.
Proof.
  induction t as [|x t IH]; constructor.
  - simpl. destruct (max_rowid t); eexists; split; try reflexivity; lia.
  - eapply Forall_impl; [exact IH|].
    intros r (m & Hm & Hle). simpl. rewrite Hm.
    eexists; split; [reflexivity|lia].
Qed.

Lemma new_rowid_gt t : Forall (fun r => rowid r < new_rowid t) t.
Proof.
  eapply Forall_impl; [apply max_rowid_ge|].
  intros r (m & Hm & Hle). unfold new_rowid. rewrite Hm. lia.
Qed.

Lemma table_get_new_rowid t : table_get (new_rowid t) t = None.
Proof.
  apply table_get_None. eapply Forall_impl; [apply new_rowid_gt|].
  simpl. intros; lia.
Qed.

Lemma table_get_insert_eq r t :
  table_get (rowid r) t = None ->
  table_get (rowid r) (table_insert r t) = Some r.
Proof.
  induction t as [|x t IH]; simpl.
  - intros _. rewrite Z.eqb_refl. reflexivity.
  - destruct (rowid x =? rowid r) eqn:E; [discriminate|]. intros H.
    destruct (rowid r <? rowid x); simpl.
    + rewrite Z.eqb_refl. reflexivity.
    + rewrite E. auto.
Qed.

Lemma table_get_insert_ne id r t :
  id <> rowid r -> table_get id (table_insert r t) = table_get id t.
Proof.
  intros Hne. induction t as [|x t IH]; simpl.
  - destruct (rowid r =? id) eqn:E; [lia|reflexivity].
  - destruct (rowid r <? rowid x); simpl.
    + destruct (rowid r =? id) eqn:E; [lia|reflexivity].
    + rewrite IH. reflexivity.
Qed.

(** A row whose key is above all others goes to the end. *)
Lemma table_insert_last r t :
  Forall (fun x => rowid x < rowid r) t -> table_insert r t = t ++ [r].
Proof.
  induction 1 as [|x t Hx _ IH]; simpl; [reflexivity|].
  destruct (rowid r <? rowid x) eqn:E; [lia|]. rewrite IH. reflexivity.
Qed.

Lemma table_update_rowids id n d t :
  map rowid (table_update id n d t) = map rowid t.
Proof.
  induction t as [|x t IH]; simpl; [reflexivity|].
  rewrite IH. destruct (rowid x =? id); reflexivity.
Qed.

Lemma table_get_update_eq id n d t r :
  table_get id t = Some r ->
  table_get id (table_update id n d t)
  = Some {| rowid := id; col_name := n; col_due_date := to_column <$> d;
            col_created_at := col_created_at r |}.
Proof.
  induction t as [|x t IH]; simpl; [discriminate|].
  destruct (rowid x =? id) eqn:E; simpl.
  - rewrite E. intros [= <-]. f_equal. f_equal. lia.
  - rewrite E. exact IH.
Qed.

Lemma table_get_update_ne id id' n d t :
  id' <> id -> table_get id' (table_update id n d t) = table_get id' t.
Proof.
  intros Hne. induction t as [|x t IH]; simpl; [reflexivity|].
  destruct (rowid x =? id) eqn:E; simpl.
  - destruct (rowid x =? id') eqn:E'; [lia|exact IH].
  - rewrite IH. reflexivity.
Qed.

Lemma table_get_delete_eq id t : table_get id (table_delete id t) = None.
Proof.
  induction t as [|x t IH]; simpl; [reflexivity|].
  destruct (rowid x =? id) eqn:E; simpl; [exact IH|].
  rewrite E. exact IH.
Qed.

Lemma table_get_delete_ne id id' t :
  id' <> id -> table_get id' (table_delete id t) = table_get id' t.
Proof.
  intros Hne. induction t as [|x t IH]; simpl; [reflexivity|].
  destruct (rowid x =? id) eqn:E; simpl.
  - destruct (rowid x =? id') eqn:E'; [lia|exact IH].
  - rewrite IH. reflexivity.
Qed.

(** *** Key order *)

Lemma above_weaken lo lo' t : lo' <= lo -> above lo t = true -> above lo' t = true.
Proof.
  destruct t as [|x t]; simpl; [reflexivity|].
  intros Hle [H1 H2]%andb_prop. apply andb_true_intro. split; [lia|exact H2].
Qed.

Lemma above_Forall lo t :
  above lo t = true -> Forall (fun r => lo < rowid r) t.
Proof.
  revert lo. induction t as [|x t IH]; simpl; intros lo; [constructor|].
  intros [H1 H2]%andb_prop. constructor; [lia|].
  apply IH. eapply above_weaken; [|exact H2]. lia.
Qed.

Lemma above_snoc lo t r :
  above lo t = true -> lo < rowid r ->
  Forall (fun x => rowid x < rowid r) t ->
  above lo (t ++ [r]) = true.
Proof.
  revert lo. induction t as [|x t IH]; simpl; intros lo Ha Hlo Hall.
  - apply andb_true_intro. split; [lia|reflexivity].
  - apply andb_prop in Ha as [H1 H2]. inversion Hall; subst.
    apply andb_true_intro. split; [exact H1|]. apply IH; assumption.
Qed.

Lemma above_update lo id n d t :
  above lo (table_update id n d t) = above lo t.
Proof.
  revert lo. induction t as [|x t IH]; simpl; intros lo; [reflexivity|].
  destruct (rowid x =? id); simpl; rewrite IH; reflexivity.
Qed.

Lemma above_delete lo id t :
  above lo t = true -> above lo (table_delete id t) = true.
Proof.
  revert lo. induction t as [|x t IH]; simpl; intros lo; [reflexivity|].
  intros [H1 H2]%andb_prop. destruct (rowid x =? id); simpl.
  - apply IH. eapply above_weaken; [|exact H2]. lia.
  - apply andb_true_intro. split; [exact H1|]. apply IH. exact H2.
Qed.

Lemma new_rowid_pos t : wf_table t -> 0 < new_rowid t.
Proof.
  intros Hwf%above_Forall. unfold new_rowid.
  destruct t as [|x t]; simpl; [lia|].
  inversion Hwf as [|? ? Hx Ht]; subst.
  pose proof (max_rowid_ge t) as Hm.
  destruct (max_rowid t); lia.
Qed.

Lemma wf_table_insert_new t n d c :
  wf_table t ->
  wf_table (table_insert {| rowid := new_rowid t; col_name := n;
                            col_due_date := d; col_created_at := c |} t).
Proof.
  intros Hwf. rewrite table_insert_last by apply new_rowid_gt.
  apply above_snoc; [exact Hwf| |apply new_rowid_gt].
  simpl. apply new_rowid_pos. exact Hwf.
Qed.

End TableFacts.

(** ** The routes, computed *)

Lemma db_advance w : db (advance w) = db w.
Proof. unfold advance. destruct (ticks w); reflexivity. Qed.

Lemma utc_offset_advance w : utc_offset (advance w) = utc_offset w.
Proof. unfold advance. destruct (ticks w); reflexivity. Qed.

Lemma clock_advance w : clock w <= clock (advance w).
Proof. unfold advance. destruct (ticks w); simpl; lia. Qed.

(** On a table whose keys are 64-bit integers, [session_get] is the range
    check followed by the lookup. *)
Lemma session_get_range_first id w :
  Forall (fun r => in_int64 (rowid r) = true) (db w) ->
  session_get id w
  = if in_int64 id
    then (inr (of_row <$> table_get id (db w)), w)
    else (inl OverflowError, w).
Proof.
  intros Hkeys. unfold session_get.
  destruct (table_get id (db w)) as [r|] eqn:E.
  - assert (Hr : in_int64 (rowid r) = true).
    { clear -Hkeys E. induction Hkeys as [|x t Hx _ IH]; simpl in E;
        [discriminate|].
      destruct (rowid x =? id); [|exact (IH E)]. congruence. }
    rewrite (table_get_rowid _ _ _ E) in Hr. rewrite Hr. reflexivity.
  - destruct (in_int64 id); reflexivity.
Qed.

Lemma GET_campaigns_eq w :
  GET_campaigns w = (Returned 200 {| data := map of_row (db w) |}, w).
Proof. reflexivity. Qed.

Lemma GET_campaign_eq id w :
  GET_campaign id w
  = (match table_get id (db w) with
     | Some r => Returned 200 {| data := of_row r |}
     | None => absent_reply id
     end, w).
Proof.
  unfold GET_campaign, route, read_campaign, bind, session_get,
    absent_reply.
  destruct (table_get id (db w)); [reflexivity|].
  destruct (in_int64 id); reflexivity.
Qed.

Lemma POST_campaigns_eq c w :
  POST_campaigns c w
  = (Returned 201 {| data := of_row (created_row c w) |},
     with_db (table_insert (created_row c w) (db w)) (advance w)).
Proof.
  unfold POST_campaigns, route, create_campaign, Campaign_model_validate,
    Campaign_new, session_add_commit, insert_object, session_refresh,
    bind, ret, datetime_now.
  simpl. rewrite db_advance, table_get_new_rowid. simpl.
  change (table_insert _ (db w)) with (table_insert (created_row c w) (db w)).
  change (new_rowid (db w)) with (rowid (created_row c w)).
  rewrite table_get_insert_eq; [reflexivity|].
  apply table_get_new_rowid.
Qed.

Lemma PUT_campaign_eq id c w :
  PUT_campaign id c w
  = match table_get id (db w) with
    | None => (absent_reply id, w)
    | Some r =>
        (Returned 200 {| data := of_row (updated_row c r) |},
         with_db (table_update id (create_name c) (create_due_date c)
                               (db w)) w)
    end.
Proof.
  unfold PUT_campaign, route, update_campaign, session_commit_modified,
    session_refresh, session_get, bind, ret, raise, absent_reply.
  destruct (table_get id (db w)) as [r|] eqn:E;
    [|destruct (in_int64 id); reflexivity].
  simpl. pose proof (table_get_rowid _ _ _ E) as Hid. rewrite Hid.
  rewrite (table_get_update_eq _ _ _ _ _ E). unfold updated_row, of_row.
  simpl. rewrite Hid. reflexivity.
Qed.

Lemma DELETE_campaign_eq id w :
  DELETE_campaign id w
  = match table_get id (db w) with
    | None => (absent_reply id, w)
    | Some _ => (Returned 204 tt, with_db (table_delete id (db w)) w)
    end.
Proof.
  unfold DELETE_campaign, route, delete_campaign, session_delete_commit,
    session_get, bind, raise, absent_reply.
  destruct (table_get id (db w)) as [r|] eqn:E;
    [|destruct (in_int64 id); reflexivity].
  simpl. rewrite (table_get_rowid _ _ _ E). reflexivity.
Qed.

(** The answer for an id without a row, in and out of range. *)
Ltac by_absent :=
  unfold absent_reply; destruct (in_int64 _); simpl; try reflexivity.

(** Startup keeps the table well formed, as every request does, so the
    tables the service reaches from an empty file are all well formed. *)
Lemma lifespan_wf w : wf_table (db w) -> wf_table (db (lifespan w).2).
Proof.
  intros Hwf.
  unfold lifespan, create_db_and_tables, session_exec_select_first,
    session_add_all_commit, Campaign_new, datetime_now, bind, ret.
  destruct (db w) as [|x t] eqn:E; simpl.
  - unfold insert_object, bind, ret. simpl.
    rewrite !db_advance, E. reflexivity.
  - rewrite E. exact Hwf.
Qed.

(** ** Requests and ids, computed *)

Lemma table_delete_absent id t :
  table_get id t = None -> table_delete id t = t.
Proof.
  intros H%table_get_None.
  induction H as [|x t Hx _ IH]; simpl; [reflexivity|].
  destruct (rowid x =? id) eqn:E; [lia|]. rewrite IH. reflexivity.
Qed.

Lemma max_rowid_update id n d t :
  max_rowid (table_update id n d t) = max_rowid t.
Proof.
  induction t as [|x t IH]; simpl; [reflexivity|].
  rewrite IH. destruct (rowid x =? id); reflexivity.
Qed.

Lemma max_rowid_snoc t r :
  Forall (fun x => rowid x < rowid r) t ->
  max_rowid (t ++ [r]) = Some (rowid r).
Proof.
  induction 1 as [|x t Hx _ IH]; simpl; [reflexivity|].
  rewrite IH. f_equal. lia.
Qed.

Lemma new_rowid_insert_new t n d c :
  new_rowid (table_insert {| rowid := new_rowid t; col_name := n;
                             col_due_date := d; col_created_at := c |} t)
  = new_rowid t + 1.
Proof.
  rewrite table_insert_last by apply new_rowid_gt.
  unfold new_rowid at 1. rewrite max_rowid_snoc by apply new_rowid_gt.
  reflexivity.
Qed.

(** Startup, computed. *)
Lemma lifespan_eq w :
  lifespan w
  = (inr tt,
     match db w with
     | [] => with_db (seed_rows w) (advance (advance (advance (advance w))))
     | _ :: _ => w
     end).
Proof.
  unfold lifespan, create_db_and_tables, session_exec_select_first,
    session_add_all_commit, Campaign_new, datetime_now, bind, ret.
  destruct (db w) as [|x t] eqn:E; simpl.
  - unfold insert_object, bind, ret. simpl.
    rewrite !db_advance, E. reflexivity.
  - reflexivity.
Qed.


Lemma serve_all_cons rq rqs w :
  serve_all (rq :: rqs) w
  = ((serve rq w).1 :: (serve_all rqs (serve rq w).2).1,
     (serve_all rqs (serve rq w).2).2).
Proof.
  simpl. destruct (serve rq w) as [a w1]. simpl.
  destruct (serve_all rqs w1) as [answers w2]. reflexivity.
Qed.

Lemma serve_eq rq w :
  serve rq w
  = match rq with
    | ReqList => (AList (GET_campaigns w).1, (GET_campaigns w).2)
    | ReqGet id => (AOne (GET_campaign id w).1, (GET_campaign id w).2)
    | ReqCreate c => (AOne (POST_campaigns c w).1, (POST_campaigns c w).2)
    | ReqUpdate id c =>
        (AOne (PUT_campaign id c w).1, (PUT_campaign id c w).2)
    | ReqDelete id =>
        (ANone (DELETE_campaign id w).1, (DELETE_campaign id w).2)
    end.
Proof.
  destruct rq as [|id|c|id c|id]; cbv beta iota delta [serve].
  - destruct (GET_campaigns w); reflexivity.
  - destruct (GET_campaign id w); reflexivity.
  - destruct (POST_campaigns c w); reflexivity.
  - destruct (PUT_campaign id c w); reflexivity.
  - destruct (DELETE_campaign id w); reflexivity.
Qed.

Lemma assigned_new_rowid rq w k :
  assigned rq w = Some k -> k = new_rowid (db w).
Proof.
  destruct rq as [| | c | |]; simpl; try discriminate.
  rewrite POST_campaigns_eq. simpl. congruence.
Qed.

Lemma serve_new_rowid rq w :
  is_delete rq = false ->
  new_rowid (db (serve rq w).2)
  = match assigned rq w with
    | Some k => k + 1
    | None => new_rowid (db w)
    end.
Proof.
  intros Hnd. rewrite serve_eq. destruct rq as [|k|c|k c|k]; simpl.
  - reflexivity.
  - rewrite GET_campaign_eq. reflexivity.
  - rewrite POST_campaigns_eq. simpl. apply new_rowid_insert_new.
  - rewrite PUT_campaign_eq. destruct (table_get k (db w)); simpl;
      [|reflexivity].
    unfold new_rowid. rewrite max_rowid_update. reflexivity.
  - discriminate.
Qed.

Lemma serve_all_new_rowid rqs w :
  forallb (fun rq => negb (is_delete rq)) rqs = true ->
  new_rowid (db w) <= new_rowid (db (serve_all rqs w).2).
Proof.
  revert w. induction rqs as [|rq rqs IH]; intros w Hnd; [simpl; lia|].
  simpl in Hnd. apply andb_prop in Hnd as [Hrq Hrest].
  apply negb_true_iff in Hrq.
  rewrite serve_all_cons. cbn [snd].
  specialize (IH (serve rq w).2 Hrest).
  rewrite (serve_new_rowid rq w Hrq) in IH.
  destruct (assigned rq w) as [k|] eqn:E; [|exact IH].
  rewrite (assigned_new_rowid _ _ _ E) in IH. lia.
Qed.

(** ** Claims *)

(** C1, as stated, fails: a due_date that carries a UTC offset is not
    read back as it was sent.  After the two seed rows a create with the
    due_date 2025-03-01T00:00:00 at offset 0 answers, and a get by the
    returned id reads, a due_date with the same date and time and no
    offset. *)
Lemma aware_due_date_read_back_naive :
  let r := {| campaign_id := Some 3; name := "Spring Sale";
              due_date := Some {| wall := 1740787200000000;
                                  tzinfo := None |};
              created_at := {| wall := 1015; tzinfo := None |} |} in
  let w1 := (POST_campaigns spring_sale seeded).2 in
  POST_campaigns spring_sale seeded = (Returned 201 {| data := r |}, w1) /\
  GET_campaign 3 w1 = (Returned 200 {| data := r |}, w1) /\
  due_date r <> create_due_date spring_sale /\
  ~ (forall w c r' w',
       POST_campaigns c w = (Returned 201 {| data := r' |}, w') ->
       due_date r' = create_due_date c).
Proof.
  split; [reflexivity|]. split; [reflexivity|]. split; [discriminate|].
  intros H.
  specialize (H seeded spring_sale _ _ eq_refl). discriminate H.
Qed.

(** C1, amended.  In every world, a create answers with a row that a get
    by the returned id reads back unchanged; its name is that of the
    input and its due_date is that of the input without the UTC offset,
    so the due_date itself when the input's is null or naive.  An update
    of an existing id answers with a row that a get reads back, with the
    name of the input, the due_date of the input without its offset, and
    the id and created_at the row had before. *)
Theorem roundtrip_up_to_offset (w : World) (c : CampaignCreate) :
  (exists r w1 id,
     POST_campaigns c w = (Returned 201 {| data := r |}, w1) /\
     campaign_id r = Some id /\
     GET_campaign id w1 = (Returned 200 {| data := r |}, w1) /\
     name r = create_name c /\
     due_date r = to_column <$> create_due_date c /\
     ((forall d, create_due_date c = Some d -> tzinfo d = None) ->
      due_date r = create_due_date c)) /\
  (forall id row,
     table_get id (db w) = Some row ->
     exists u w1,
       PUT_campaign id c w = (Returned 200 {| data := u |}, w1) /\
       GET_campaign id w1 = (Returned 200 {| data := u |}, w1) /\
       name u = create_name c /\
       due_date u = to_column <$> create_due_date c /\
       ((forall d, create_due_date c = Some d -> tzinfo d = None) ->
        due_date u = create_due_date c) /\
       campaign_id u = Some id /\
       campaign_id u = campaign_id (of_row row) /\
       created_at u = created_at (of_row row)).
Proof.
  assert (Hnaive :
    (forall d, create_due_date c = Some d -> tzinfo d = None) ->
    to_column <$> create_due_date c = create_due_date c).
  { intros H. destruct (create_due_date c) as [d|]; [|reflexivity].
    specialize (H d eq_refl). destruct d as [wl tz]. simpl in *.
    subst tz. reflexivity. }
  split.
  - exists (of_row (created_row c w)),
      (with_db (table_insert (created_row c w) (db w)) (advance w)),
      (new_rowid (db w)).
    split; [apply POST_campaigns_eq|]. split; [reflexivity|].
    split; [|split; [reflexivity|split; [reflexivity|exact Hnaive]]].
    rewrite GET_campaign_eq. simpl.
    change (new_rowid (db w)) with (rowid (created_row c w)).
    rewrite table_get_insert_eq; [reflexivity|]. apply table_get_new_rowid.
  - intros id row Hrow.
    exists (of_row (updated_row c row)),
      (with_db (table_update id (create_name c) (create_due_date c) (db w)) w).
    pose proof (table_get_rowid _ _ _ Hrow) as Hid.
    split; [rewrite PUT_campaign_eq, Hrow; reflexivity|].
    split.
    + rewrite GET_campaign_eq. simpl.
      rewrite (table_get_update_eq _ _ _ _ _ Hrow).
      unfold updated_row. rewrite Hid. reflexivity.
    + simpl. rewrite Hid.
      split; [reflexivity|]. split; [reflexivity|].
      split; [exact Hnaive|]. repeat split; reflexivity.
Qed.

Lemma roundtrip_up_to_offset_witness :
  table_get 1 (db seeded) = Some summer_launch_row /\
  exists u w1,
    PUT_campaign 1 renamed seeded = (Returned 200 {| data := u |}, w1) /\
    GET_campaign 1 w1 = (Returned 200 {| data := u |}, w1) /\
    name u = "Renamed"%string /\
    due_date u = None /\
    ((forall d, create_due_date renamed = Some d -> tzinfo d = None) ->
     due_date u = None) /\
    campaign_id u = Some 1 /\
    campaign_id u = campaign_id (of_row summer_launch_row) /\
    created_at u = created_at (of_row summer_launch_row).
Proof.
  split; [reflexivity|].
  exact (proj2 (roundtrip_up_to_offset seeded renamed)
               1 summer_launch_row eq_refl).
Defined.

(** C2, as stated, fails twice.  The answer for an id with no row is not
    empty: the exception carries the detail "Not Found" and the response
    has the body with that detail.  And an id outside the 64-bit range
    has no row and yet is not answered NotFound: get, update and delete
    raise OverflowError. *)
Lemma not_found_has_body_and_range :
  table_get 9999 (db seeded) = None /\
  error_response (GET_campaign 9999 seeded).1
  = Some (404, Some (JObject [("detail"%string, JString "Not Found")])) /\
  table_get (2 ^ 63) (db seeded) = None /\
  GET_campaign (2 ^ 63) seeded = (Raised OverflowError, seeded) /\
  PUT_campaign (2 ^ 63) renamed seeded = (Raised OverflowError, seeded) /\
  DELETE_campaign (2 ^ 63) seeded = (Raised OverflowError, seeded) /\
  (GET_campaign (2 ^ 63) seeded).1 <> NotFound.
Proof.
  repeat split; try reflexivity. discriminate.
Qed.

(** C2, amended.  For an id in the 64-bit range with no row, get, update
    and delete each answer NotFound, which is status 404 with the body
    of the detail "Not Found", and leave the world as it was; for an id
    with a row, each of them returns normally, so none answers
    NotFound. *)
Theorem not_found_iff_absent (w : World) (id : Z) (c : CampaignCreate) :
  (table_get id (db w) = None ->
   in_int64 id = true ->
     GET_campaign id w = (NotFound, w) /\
     PUT_campaign id c w = (NotFound, w) /\
     DELETE_campaign id w = (NotFound, w) /\
     error_response (GET_campaign id w).1
     = Some (404, Some (JObject [("detail"%string, JString "Not Found")])) /\
     error_response (PUT_campaign id c w).1
     = Some (404, Some (JObject [("detail"%string, JString "Not Found")])) /\
     error_response (DELETE_campaign id w).1
     = Some (404, Some (JObject [("detail"%string, JString "Not Found")]))) /\
  (forall row,
     table_get id (db w) = Some row ->
     ((GET_campaign id w).1 <> NotFound /\
      (PUT_campaign id c w).1 <> NotFound /\
      (DELETE_campaign id w).1 <> NotFound) /\
     (exists x, (GET_campaign id w).1 = Returned 200 x) /\
     (exists x, (PUT_campaign id c w).1 = Returned 200 x) /\
     (DELETE_campaign id w).1 = Returned 204 tt).
Proof.
  rewrite GET_campaign_eq, PUT_campaign_eq, DELETE_campaign_eq. split.
  - intros -> Hid. unfold absent_reply. rewrite Hid.
    repeat split; reflexivity.
  - intros row ->. simpl. split; [repeat split; discriminate|].
    repeat split; eexists; reflexivity.
Qed.

Lemma not_found_iff_absent_witness :
  (GET_campaign 9999 seeded = (NotFound, seeded) /\
   PUT_campaign 9999 renamed seeded = (NotFound, seeded) /\
   DELETE_campaign 9999 seeded = (NotFound, seeded) /\
   error_response (GET_campaign 9999 seeded).1
   = Some (404, Some (JObject [("detail"%string, JString "Not Found")])) /\
   error_response (PUT_campaign 9999 renamed seeded).1
   = Some (404, Some (JObject [("detail"%string, JString "Not Found")])) /\
   error_response (DELETE_campaign 9999 seeded).1
   = Some (404, Some (JObject [("detail"%string, JString "Not Found")]))) /\
  (GET_campaign 1 seeded).1 <> NotFound /\
  (PUT_campaign 1 renamed seeded).1 <> NotFound /\
  (DELETE_campaign 1 seeded).1 <> NotFound.
Proof.
  split.
  - exact (proj1 (not_found_iff_absent seeded 9999 renamed) eq_refl eq_refl).
  - exact (proj1 (proj2 (not_found_iff_absent seeded 1 renamed)
                        summer_launch_row eq_refl)).
Defined.

(** C3. An update of an existing id replaces both mutable fields: the
    stored name becomes that of the input and the stored due_date is
    taken from the input alone (its date and time, without the offset),
    whatever was stored before; in particular a body that leaves
    due_date out stores null. *)
Theorem update_replaces_both_fields
    (datetime_validate : json -> option datetime)
    (w : World) (id : Z) (row : Row) :
  table_get id (db w) = Some row ->
  (forall c,
     exists row',
       table_get id (db (PUT_campaign id c w).2) = Some row' /\
       col_name row' = create_name c /\
       col_due_date row' = to_column <$> create_due_date c /\
       (create_due_date c = None -> col_due_date row' = None)) /\
  (forall (body : gmap string json) n,
     body !! "name"%string = Some (JString n) ->
     body !! "due_date"%string = None ->
     exists row',
       table_get id (db (PUT_campaign_body datetime_validate id body w).2)
       = Some row' /\
       col_name row' = n /\ col_due_date row' = None).
Proof.
  intros Hrow.
  assert (Hput : forall c,
    exists row',
      table_get id (db (PUT_campaign id c w).2) = Some row' /\
      col_name row' = create_name c /\
      col_due_date row' = to_column <$> create_due_date c /\
      (create_due_date c = None -> col_due_date row' = None)).
  { intros c. rewrite PUT_campaign_eq, Hrow. simpl.
    rewrite (table_get_update_eq _ _ _ _ _ Hrow).
    eexists; repeat split; try reflexivity. simpl. intros ->. reflexivity. }
  split; [exact Hput|].
  intros body n Hname Hdue.
  unfold PUT_campaign_body, CampaignCreate_validate.
  rewrite Hname, Hdue.
  destruct (Hput {| create_name := n; create_due_date := None |})
    as (row' & H1 & H2 & H3 & _).
  exists row'. repeat split; assumption.
Qed.

Lemma update_replaces_both_fields_witness :
  exists row',
    table_get 1 (db (PUT_campaign_body sample_datetime_validate 1
                       {[ "name"%string := JString "Renamed" ]} seeded).2)
    = Some row' /\
    col_name row' = "Renamed"%string /\ col_due_date row' = None.
Proof.
  exact (proj2 (update_replaces_both_fields sample_datetime_validate
                  seeded 1 summer_launch_row eq_refl)
               {[ "name"%string := JString "Renamed" ]} "Renamed"%string
               eq_refl eq_refl).
Defined.

(** C4. On a well-formed table a create returns, with status 201, a row
    whose id is set and above zero and whose created_at is a reading of
    the UTC clock taken between the start and the end of the request
    (read back without offset); and a create that follows it, directly or
    after any requests that delete nothing, returns a larger id, so a
    different one. *)
Theorem create_assigns_id_and_time (w : World) (c : CampaignCreate) :
  wf_table (db w) ->
  exists r w1 id,
    POST_campaigns c w = (Returned 201 {| data := r |}, w1) /\
    campaign_id r = Some id /\ 0 < id /\
    tzinfo (created_at r) = None /\
    clock w <= wall (created_at r) <= clock w1 /\
    wf_table (db w1) /\
    (forall c2,
       exists r2 w2 id2,
         POST_campaigns c2 w1 = (Returned 201 {| data := r2 |}, w2) /\
         campaign_id r2 = Some id2 /\ id2 <> id) /\
    forall rqs c2,
      forallb (fun rq => negb (is_delete rq)) rqs = true ->
      exists r2 w2 id2,
        POST_campaigns c2 (serve_all rqs w1).2
        = (Returned 201 {| data := r2 |}, w2) /\
        campaign_id r2 = Some id2 /\ id < id2.
Proof.
  intros Hwf.
  exists (of_row (created_row c w)),
    (with_db (table_insert (created_row c w) (db w)) (advance w)),
    (new_rowid (db w)).
  split; [apply POST_campaigns_eq|]. split; [reflexivity|].
  split; [apply new_rowid_pos; exact Hwf|]. split; [reflexivity|].
  split.
  { simpl. unfold timezone_utc. pose proof (clock_advance w). lia. }
  split; [apply wf_table_insert_new; exact Hwf|].
  set (w1 := with_db _ _).
  assert (Hnext : new_rowid (db w1) = new_rowid (db w) + 1).
  { subst w1. simpl. apply new_rowid_insert_new. }
  assert (Hlater : forall rqs c2,
    forallb (fun rq => negb (is_delete rq)) rqs = true ->
    exists r2 w2 id2,
      POST_campaigns c2 (serve_all rqs w1).2
      = (Returned 201 {| data := r2 |}, w2) /\
      campaign_id r2 = Some id2 /\ new_rowid (db w) < id2).
  { intros rqs c2 Hnd. set (w' := (serve_all rqs w1).2).
    exists (of_row (created_row c2 w')),
      (with_db (table_insert (created_row c2 w') (db w')) (advance w')),
      (new_rowid (db w')).
    split; [apply POST_campaigns_eq|]. split; [reflexivity|].
    pose proof (serve_all_new_rowid rqs w1 Hnd) as Hle. fold w' in Hle. lia. }
  split; [|exact Hlater].
  intros c2. destruct (Hlater [] c2 eq_refl) as (r2 & w2 & id2 & H1 & H2 & H3).
  exists r2, w2, id2. split; [exact H1|]. split; [exact H2|]. lia.
Qed.

Lemma create_assigns_id_and_time_witness :
  exists r w1 id,
    POST_campaigns spring_sale seeded = (Returned 201 {| data := r |}, w1) /\
    campaign_id r = Some id /\ 0 < id /\
    tzinfo (created_at r) = None /\
    clock seeded <= wall (created_at r) <= clock w1 /\
    wf_table (db w1) /\
    (forall c2,
       exists r2 w2 id2,
         POST_campaigns c2 w1 = (Returned 201 {| data := r2 |}, w2) /\
         campaign_id r2 = Some id2 /\ id2 <> id) /\
    forall rqs c2,
      forallb (fun rq => negb (is_delete rq)) rqs = true ->
      exists r2 w2 id2,
        POST_campaigns c2 (serve_all rqs w1).2
        = (Returned 201 {| data := r2 |}, w2) /\
        campaign_id r2 = Some id2 /\ id < id2.
Proof.
  apply (create_assigns_id_and_time seeded spring_sale). reflexivity.
Defined.

(** C5. At startup an empty table receives exactly two rows, written by
    one commit: "Summer Launch" under id 1 and "Black Friday" under id 2,
    each with a due_date that is a naive local reading of the clock taken
    during the seeding; a listing then shows exactly these two rows.  A
    table that has a row is left as it is. *)
Theorem lifespan_seeds_empty_table (w : World) :
  (db w = [] ->
   exists w1 due1 due2 at1 at2,
     lifespan w = (inr tt, w1) /\
     db w1 = [ {| rowid := 1; col_name := "Summer Launch";
                  col_due_date := Some due1; col_created_at := at1 |};
               {| rowid := 2; col_name := "Black Friday";
                  col_due_date := Some due2; col_created_at := at2 |} ] /\
     tzinfo due1 = None /\ tzinfo due2 = None /\
     clock w + utc_offset w <= wall due1 /\
     wall due1 <= wall due2 /\
     wall due2 <= clock w1 + utc_offset w /\
     listing w1 = map of_row (db w1) /\
     length (listing w1) = 2%nat) /\
  (db w <> [] -> lifespan w = (inr tt, w)).
Proof.
  split.
  - intros Hdb.
    unfold lifespan, create_db_and_tables, session_exec_select_first,
      session_add_all_commit, Campaign_new, datetime_now, bind, ret.
    rewrite Hdb. simpl.
    unfold insert_object, bind, ret. simpl.
    rewrite !db_advance, Hdb. simpl.
    do 5 eexists. split; [reflexivity|]. simpl.
    split; [reflexivity|]. split; [reflexivity|]. split; [reflexivity|].
    rewrite !utc_offset_advance.
    pose proof (clock_advance w).
    pose proof (clock_advance (advance w)).
    pose proof (clock_advance (advance (advance w))).
    pose proof (clock_advance (advance (advance (advance w)))).
    unfold to_column. cbn [wall]. repeat split; try reflexivity; lia.
  - intros Hdb. unfold lifespan, create_db_and_tables,
      session_exec_select_first, bind, ret.
    destruct (db w); [congruence|reflexivity].
Qed.

Lemma lifespan_seeds_empty_table_witness :
  (exists w1 due1 due2 at1 at2,
     lifespan world0 = (inr tt, w1) /\
     db w1 = [ {| rowid := 1; col_name := "Summer Launch";
                  col_due_date := Some due1; col_created_at := at1 |};
               {| rowid := 2; col_name := "Black Friday";
                  col_due_date := Some due2; col_created_at := at2 |} ] /\
     tzinfo due1 = None /\ tzinfo due2 = None /\
     clock world0 + utc_offset world0 <= wall due1 /\
     wall due1 <= wall due2 /\
     wall due2 <= clock w1 + utc_offset world0 /\
     listing w1 = map of_row (db w1) /\
     length (listing w1) = 2%nat) /\
  lifespan seeded = (inr tt, seeded).
Proof.
  split.
  - exact (proj1 (lifespan_seeds_empty_table world0) eq_refl).
  - apply (proj2 (lifespan_seeds_empty_table seeded)). discriminate.
Defined.

(** ** Sequences of requests *)

(** An id with no row gets one only from a create that is given it. *)
Lemma serve_keeps_absent id rq w :
  table_get id (db w) = None ->
  assigned rq w <> Some id ->
  table_get id (db (serve rq w).2) = None.
Proof.
  intros Habs Hne. rewrite serve_eq. destruct rq as [|k|c|k c|k]; simpl.
  - exact Habs.
  - rewrite GET_campaign_eq. exact Habs.
  - simpl in Hne. rewrite POST_campaigns_eq in Hne |- *. simpl in *.
    rewrite table_get_insert_ne; [exact Habs|]. simpl. congruence.
  - rewrite PUT_campaign_eq. destruct (table_get k (db w)) eqn:E; simpl.
    + rewrite table_get_update_ne; [exact Habs|]. congruence.
    + exact Habs.
  - rewrite DELETE_campaign_eq. destruct (table_get k (db w)) eqn:E; simpl.
    + rewrite table_get_delete_ne; [exact Habs|]. congruence.
    + exact Habs.
Qed.

Lemma lifespan_keeps_absent id w :
  table_get id (db w) = None ->
  id ∉ written Restart w ->
  table_get id (db (lifespan w).2) = None.
Proof.
  intros Habs Hnot. unfold written in Hnot. rewrite lifespan_eq in Hnot |- *.
  destruct (db w) as [|x t] eqn:E; cbn [snd] in *; [|rewrite E; exact Habs].
  change (id ∉ [1; 2]) in Hnot. rewrite !not_elem_of_cons in Hnot.
  destruct Hnot as (H1 & H2 & _).
  apply table_get_None. unfold seed_rows.
  constructor; [simpl; lia|]. constructor; [simpl; lia|]. constructor.
Qed.

Lemma step_keeps_absent id ev w :
  table_get id (db w) = None ->
  id ∉ written ev w ->
  table_get id (db (step ev w)) = None.
Proof.
  intros Habs Hnot. destruct ev as [rq|]; simpl.
  - apply serve_keeps_absent; [exact Habs|].
    intros Heq. apply Hnot. simpl. rewrite Heq.
    apply elem_of_cons. left. reflexivity.
  - apply lifespan_keeps_absent; assumption.
Qed.

Lemma never_written_app id evs1 evs2 w :
  never_written id (evs1 ++ evs2) w = true ->
  never_written id evs1 w = true.
Proof.
  revert w. induction evs1 as [|ev evs1 IH]; intros w; [reflexivity|].
  simpl. intros [H1 H2]%andb_prop. rewrite H1. simpl. apply IH. exact H2.
Qed.

Lemma run_keeps_absent id evs w :
  table_get id (db w) = None ->
  never_written id evs w = true ->
  table_get id (db (run evs w)) = None.
Proof.
  revert w. induction evs as [|ev evs IH]; intros w Habs Hnever.
  - exact Habs.
  - simpl in Hnever |- *. apply andb_prop in Hnever as [Hev Hrest].
    apply negb_true_iff, bool_decide_eq_false in Hev.
    apply IH; [|exact Hrest]. apply step_keeps_absent; assumption.
Qed.

(** C6, as stated, fails: a deleted row comes back under its id, and a
    delete of the id succeeds again, with no create in between.  After
    the seed row 1 is deleted, a delete of row 2 empties the table and a
    restart seeds it again: id 1 has a row, and a delete of id 1 answers
    204, not NotFound. *)
Lemma deleted_seed_returns_after_restart :
  let evs := [Serve (ReqDelete 2); Restart] in
  let w2 := run evs after_delete in
  DELETE_campaign 1 seeded = (Returned 204 tt, after_delete) /\
  forallb (fun ev => negb (is_create ev)) evs = true /\
  (exists row,
     table_get 1 (db w2) = Some row /\
     col_name row = "Summer Launch"%string) /\
  (DELETE_campaign 1 w2).1 = Returned 204 tt /\
  (DELETE_campaign 1 w2).1 <> NotFound.
Proof.
  split; [reflexivity|]. split; [reflexivity|].
  split; [eexists; split; reflexivity|].
  split; [reflexivity|discriminate].
Qed.

(** C6, amended.  After a delete of an id has succeeded, the id has no
    row, and every later delete and get of it answers NotFound, for as
    long as no new row is written under that id: neither by a create
    that is given the id, nor by a restart that finds the table empty
    and seeds ids 1 and 2 again.  (The id is a 64-bit integer, as every
    id of a stored row is.) *)
Theorem delete_is_final (w w1 : World) (id : Z) :
  DELETE_campaign id w = (Returned 204 tt, w1) ->
  in_int64 id = true ->
  forall evs,
    never_written id evs w1 = true ->
    forall evs1 evs2,
      evs = evs1 ++ evs2 ->
      table_get id (db (run evs1 w1)) = None /\
      DELETE_campaign id (run evs1 w1) = (NotFound, run evs1 w1) /\
      GET_campaign id (run evs1 w1) = (NotFound, run evs1 w1).
Proof.
  intros Hdel Hid evs Hnever evs1 evs2 ->.
  assert (Habs : table_get id (db w1) = None).
  { rewrite DELETE_campaign_eq in Hdel.
    destruct (table_get id (db w)); [|unfold absent_reply in Hdel;
      destruct (in_int64 id); discriminate].
    injection Hdel as <-. simpl. apply table_get_delete_eq. }
  apply never_written_app in Hnever.
  pose proof (run_keeps_absent id evs1 w1 Habs Hnever) as H1.
  split; [exact H1|].
  rewrite DELETE_campaign_eq, GET_campaign_eq, H1.
  unfold absent_reply. rewrite Hid. split; reflexivity.
Qed.

Lemma delete_is_final_witness :
  table_get 1 (db (run later_events after_delete)) = None /\
  DELETE_campaign 1 (run later_events after_delete)
  = (NotFound, run later_events after_delete) /\
  GET_campaign 1 (run later_events after_delete)
  = (NotFound, run later_events after_delete).
Proof.
  apply (delete_is_final seeded after_delete 1 eq_refl eq_refl later_events
           eq_refl later_events [] eq_refl).
Defined.

(** C7, as stated, fails: after the two seed rows a create is given id 3,
    a delete removes row 3, and the next create is given id 3 again. *)
Lemma id_reused_after_delete :
  wf_table (db seeded) /\
  (serve_all [ReqCreate spring_sale; ReqDelete 3; ReqCreate renamed]
             seeded).1
  = [ AOne (Returned 201
        {| data := {| campaign_id := Some 3; name := "Spring Sale";
                      due_date := to_column <$> create_due_date spring_sale;
                      created_at := {| wall := 1015;
                                       tzinfo := None |} |} |});
      ANone (Returned 204 tt);
      AOne (Returned 201
        {| data := {| campaign_id := Some 3; name := "Renamed";
                      due_date := None;
                      created_at := {| wall := 1019;
                                       tzinfo := None |} |} |}) ] /\
  reuses_deleted [] [ReqCreate spring_sale; ReqDelete 3; ReqCreate renamed]
                 seeded = true /\
  ~ (forall w rqs, wf_table (db w) -> reuses_deleted [] rqs w = false).
Proof.
  split; [reflexivity|]. split; [reflexivity|]. split; [reflexivity|].
  intros H.
  specialize (H seeded [ReqCreate spring_sale; ReqDelete 3; ReqCreate renamed]
                eq_refl).
  discriminate H.
Qed.

(** C7, amended. No request changes the id of a stored row: an update
    leaves the ids of the table as they are and a delete only takes the
    rows of its id away; and a create returns an id larger than every id
    in the table at that moment, so never the id of a stored row. *)
Theorem ids_immutable_and_fresh (w : World) (c : CampaignCreate) :
  (forall id,
     map rowid (db (PUT_campaign id c w).2) = map rowid (db w)) /\
  (forall id,
     map rowid (db (DELETE_campaign id w).2)
     = List.filter (fun k => negb (k =? id)) (map rowid (db w))) /\
  (exists r w1 k,
     POST_campaigns c w = (Returned 201 {| data := r |}, w1) /\
     campaign_id r = Some k /\
     Forall (fun row => rowid row < k) (db w) /\
     table_get k (db w) = None).
Proof.
  split; [|split].
  - intros id. rewrite PUT_campaign_eq.
    destruct (table_get id (db w)); simpl; [|reflexivity].
    apply table_update_rowids.
  - intros id. rewrite DELETE_campaign_eq.
    assert (Hdel : map rowid (table_delete id (db w))
                   = List.filter (fun k => negb (k =? id)) (map rowid (db w))).
    { induction (db w) as [|x t IH]; simpl; [reflexivity|].
      destruct (rowid x =? id); simpl; rewrite IH; reflexivity. }
    destruct (table_get id (db w)) eqn:E; simpl; [exact Hdel|].
    rewrite <- Hdel. clear Hdel. apply table_get_None in E.
    induction E as [|x t Hx _ IH]; simpl; [reflexivity|].
    destruct (rowid x =? id) eqn:E'; [lia|]. simpl. rewrite <- IH.
    reflexivity.
  - exists (of_row (created_row c w)),
      (with_db (table_insert (created_row c w) (db w)) (advance w)),
      (new_rowid (db w)).
    split; [apply POST_campaigns_eq|]. split; [reflexivity|].
    split; [apply new_rowid_gt|apply table_get_new_rowid].
Qed.

(** C8. The caller sets name and due_date and nothing else: members
    [campaign_id] and [created_at] of a request body change neither the
    answer nor the table, for a create and for an update; whatever the
    input, a create in a given world returns the same id and created_at;
    and an update leaves a row its id and created_at. *)
Theorem caller_sets_only_name_and_due_date
    (datetime_validate : json -> option datetime)
    (w : World) (body : gmap string json) (v1 v2 : json) :
  let body' := <[ "campaign_id"%string := v1 ]>
                 (<[ "created_at"%string := v2 ]> body) in
  POST_campaigns_body datetime_validate body' w
  = POST_campaigns_body datetime_validate body w /\
  (forall id,
     PUT_campaign_body datetime_validate id body' w
     = PUT_campaign_body datetime_validate id body w) /\
  (forall c1 c2,
     match (POST_campaigns c1 w).1, (POST_campaigns c2 w).1 with
     | Returned _ r1, Returned _ r2 =>
         campaign_id (data r1) = campaign_id (data r2) /\
         created_at (data r1) = created_at (data r2)
     | _, _ => False
     end) /\
  (forall id c,
     match table_get id (db w), table_get id (db (PUT_campaign id c w).2) with
     | Some row, Some row' =>
         rowid row' = rowid row /\ col_created_at row' = col_created_at row
     | None, None => True
     | _, _ => False
     end).
Proof.
  intros body'.
  assert (Hval : CampaignCreate_validate datetime_validate body'
                 = CampaignCreate_validate datetime_validate body).
  { unfold CampaignCreate_validate, body'.
    rewrite !lookup_insert_ne by discriminate. reflexivity. }
  split; [|split; [|split]].
  - unfold POST_campaigns_body. rewrite Hval. reflexivity.
  - intros id. unfold PUT_campaign_body. rewrite Hval. reflexivity.
  - intros c1 c2. rewrite !POST_campaigns_eq. simpl. split; reflexivity.
  - intros id c. rewrite PUT_campaign_eq.
    destruct (table_get id (db w)) as [row|] eqn:E; simpl.
    + rewrite (table_get_update_eq _ _ _ _ _ E). simpl.
      split; [|reflexivity]. symmetry. exact (table_get_rowid _ _ _ E).
    + rewrite E. exact I.
Qed.

(** ** Listing order *)

(** In a table with keys in order, the row found for an id is the only
    one with that id. *)
Lemma above_get_unique lo t id r :
  above lo t = true ->
  table_get id t = Some r ->
  Forall (fun x => rowid x = id -> x = r) t.
Proof.
  revert lo. induction t as [|x t IH]; simpl; intros lo Ha Hget.
  - constructor.
  - apply andb_prop in Ha as [H1 H2].
    destruct (rowid x =? id) eqn:E.
    + injection Hget as <-. constructor; [reflexivity|].
      eapply Forall_impl; [apply above_Forall; exact H2|].
      simpl. intros y Hy Hid. lia.
    + constructor; [lia|]. eapply IH; eassumption.
Qed.

Lemma has_id_of_row id x : has_id id (of_row x) = (rowid x =? id).
Proof.
  unfold has_id. simpl. destruct (rowid x =? id) eqn:E.
  - apply bool_decide_eq_true. f_equal. lia.
  - apply bool_decide_eq_false. intros [= H]. lia.
Qed.

Lemma listing_update id c t r :
  Forall (fun x => rowid x = id -> x = r) t ->
  map of_row (table_update id (create_name c) (create_due_date c) t)
  = map (fun o => if has_id id o then of_row (updated_row c r) else o)
        (map of_row t).
Proof.
  induction 1 as [|x t Hx _ IH]; simpl; [reflexivity|].
  rewrite IH, has_id_of_row. destruct (rowid x =? id) eqn:E; [|reflexivity].
  rewrite <- (Hx ltac:(lia)). reflexivity.
Qed.

Lemma listing_delete id t :
  map of_row (table_delete id t)
  = List.filter (fun o => negb (has_id id o)) (map of_row t).
Proof.
  induction t as [|x t IH]; simpl; [reflexivity|].
  rewrite has_id_of_row. destruct (rowid x =? id); simpl; rewrite IH;
    reflexivity.
Qed.

Lemma serve_wf rq w : wf_table (db w) -> wf_table (db (serve rq w).2).
Proof.
  intros Hwf. rewrite serve_eq. destruct rq as [|k|c|k c|k]; simpl.
  - exact Hwf.
  - rewrite GET_campaign_eq. exact Hwf.
  - rewrite POST_campaigns_eq. simpl. apply wf_table_insert_new. exact Hwf.
  - rewrite PUT_campaign_eq. destruct (table_get k (db w)); simpl;
      [|exact Hwf].
    unfold wf_table. rewrite above_update. exact Hwf.
  - rewrite DELETE_campaign_eq. destruct (table_get k (db w)); simpl;
      [|exact Hwf].
    apply above_delete. exact Hwf.
Qed.

Lemma serve_insertion_order_step rq w :
  wf_table (db w) ->
  listing (serve rq w).2
  = insertion_order_step rq (serve rq w).1 (listing w).
Proof.
  intros Hwf. rewrite serve_eq. unfold listing.
  rewrite !GET_campaigns_eq. simpl.
  destruct rq as [|k|c|k c|k]; simpl.
  - reflexivity.
  - rewrite GET_campaign_eq. reflexivity.
  - rewrite POST_campaigns_eq. simpl.
    rewrite table_insert_last by apply new_rowid_gt.
    rewrite map_app. reflexivity.
  - rewrite PUT_campaign_eq. destruct (table_get k (db w)) as [r|] eqn:E;
      simpl; [|by_absent].
    apply listing_update. eapply above_get_unique; eassumption.
  - rewrite DELETE_campaign_eq. destruct (table_get k (db w)) as [r|] eqn:E;
      simpl; [|by_absent].
    apply listing_delete.
Qed.

(** C9. A listing returns, with status 200, every row of the table, as
    many as the table has, and leaves the world as it is; and on a
    well-formed table the rows come in order of insertion: after any
    sequence of requests the listing is the earlier listing with each
    created row put at the end, each updated row changed where it
    stands, and each deleted row taken out. *)
Theorem listing_whole_table_in_insertion_order (w : World) :
  wf_table (db w) ->
  GET_campaigns w = (Returned 200 {| data := map of_row (db w) |}, w) /\
  length (listing w) = length (db w) /\
  (forall row, row ∈ db w -> of_row row ∈ listing w) /\
  forall rqs,
    listing (serve_all rqs w).2 = insertion_order rqs w (listing w).
Proof.
  intros Hwf. split; [reflexivity|]. split; [apply length_map|].
  split.
  { intros row Hrow. change (listing w) with (map of_row (db w)).
    apply list_elem_of_In, in_map, list_elem_of_In. exact Hrow. }
  intros rqs. revert w Hwf.
  induction rqs as [|rq rqs IH]; intros w Hwf; [reflexivity|].
  rewrite serve_all_cons. simpl.
  pose proof (serve_insertion_order_step rq w Hwf) as Hstep.
  pose proof (serve_wf rq w Hwf) as Hwf'.
  destruct (serve rq w) as [a w1]. simpl in *.
  rewrite IH by exact Hwf'. rewrite Hstep. reflexivity.
Qed.

Lemma listing_whole_table_in_insertion_order_witness :
  GET_campaigns seeded
  = (Returned 200 {| data := map of_row (db seeded) |}, seeded) /\
  length (listing seeded) = length (db seeded) /\
  (forall row, row ∈ db seeded -> of_row row ∈ listing seeded) /\
  forall rqs,
    listing (serve_all rqs seeded).2
    = insertion_order rqs seeded (listing seeded).
Proof.
  apply (listing_whole_table_in_insertion_order seeded). reflexivity.
Defined.

(** C10. On an empty table a listing returns, with status 200, the
    envelope around an empty list; it does not answer NotFound. *)
Theorem listing_empty_table (w : World) :
  db w = [] ->
  GET_campaigns w = (Returned 200 {| data := [] |}, w) /\
  (GET_campaigns w).1 <> NotFound.
Proof.
  intros Hdb. rewrite GET_campaigns_eq, Hdb. split; [reflexivity|].
  discriminate.
Qed.

Lemma listing_empty_table_witness :
  GET_campaigns world0 = (Returned 200 {| data := [] |}, world0) /\
  (GET_campaigns world0).1 <> NotFound.
Proof.
  apply (listing_empty_table world0). reflexivity.
Defined.

(** * Further properties of the service *)

(** ** More on the table *)

Lemma table_delete_insert r t :
  table_get (rowid r) t = None ->
  table_delete (rowid r) (table_insert r t) = t.
Proof.
  induction t as [|x t IH]; simpl.
  - intros _. rewrite Z.eqb_refl. reflexivity.
  - destruct (rowid x =? rowid r) eqn:E; [discriminate|]. intros H.
    destruct (rowid r <? rowid x); simpl.
    + rewrite Z.eqb_refl, E. f_equal. apply table_delete_absent. exact H.
    + rewrite E, IH by exact H. reflexivity.
Qed.

Lemma table_update_update id n1 d1 n2 d2 t :
  table_update id n2 d2 (table_update id n1 d1 t) = table_update id n2 d2 t.
Proof.
  induction t as [|x t IH]; simpl; [reflexivity|].
  rewrite IH. destruct (rowid x =? id) eqn:E; simpl; rewrite E; reflexivity.
Qed.

Lemma table_delete_update id n d t :
  table_delete id (table_update id n d t) = table_delete id t.
Proof.
  induction t as [|x t IH]; simpl; [reflexivity|].
  rewrite IH. destruct (rowid x =? id) eqn:E; simpl; rewrite E; reflexivity.
Qed.

Lemma length_table_insert r t :
  length (table_insert r t) = S (length t).
Proof.
  induction t as [|x t IH]; simpl; [reflexivity|].
  destruct (rowid r <? rowid x); simpl; [reflexivity|]. rewrite IH.
  reflexivity.
Qed.

Lemma length_table_update id n d t :
  length (table_update id n d t) = length t.
Proof.
  induction t as [|x t IH]; simpl; [reflexivity|]. rewrite IH. reflexivity.
Qed.

(** With keys in order a delete of a stored id takes one row away. *)
Lemma length_table_delete lo id t r :
  above lo t = true ->
  table_get id t = Some r ->
  S (length (table_delete id t)) = length t.
Proof.
  revert lo. induction t as [|x t IH]; simpl; intros lo Ha Hget.
  - discriminate.
  - apply andb_prop in Ha as [H1 H2]. destruct (rowid x =? id) eqn:E.
    + rewrite table_delete_absent; [reflexivity|].
      apply table_get_None. eapply Forall_impl;
        [apply above_Forall; exact H2|].
      simpl. intros y Hy. lia.
    + simpl. f_equal. eapply IH; eassumption.
Qed.

Lemma above_NoDup lo t : above lo t = true -> NoDup (map rowid t).
Proof.
  revert lo. induction t as [|x t IH]; simpl; intros lo Ha.
  - constructor.
  - apply andb_prop in Ha as [H1 H2]. constructor; [|eapply IH; exact H2].
    intros Hin. apply list_elem_of_In, in_map_iff in Hin as (y & Hy & Hin).
    pose proof (above_Forall _ _ H2) as Hall.
    rewrite List.Forall_forall in Hall. specialize (Hall y Hin). lia.
Qed.

Lemma serve_all_wf rqs w :
  wf_table (db w) -> wf_table (db (serve_all rqs w).2).
Proof.
  revert w. induction rqs as [|rq rqs IH]; intros w Hwf; [exact Hwf|].
  rewrite serve_all_cons. simpl. apply IH, serve_wf, Hwf.
Qed.

(** ** Reads *)

(** X1. The three GET routes change nothing: the root route, a listing
    and a get by id, found or not, leave the world (table and clock) as
    it was; the root route answers 200 with its fixed message. *)
Theorem reads_change_nothing (w : World) (id : Z) :
  GET_root w = (Returned 200 {| message := "Hello World" |}, w) /\
  (GET_campaigns w).2 = w /\
  (GET_campaign id w).2 = w /\
  forall rqs,
    forallb (fun rq => match rq with
                       | ReqList | ReqGet _ => true
                       | _ => false
                       end) rqs = true ->
    (serve_all rqs w).2 = w.
Proof.
  split; [reflexivity|]. split; [reflexivity|].
  split; [rewrite GET_campaign_eq; reflexivity|].
  intros rqs. induction rqs as [|rq rqs IH]; intros Hall; [reflexivity|].
  simpl in Hall. apply andb_prop in Hall as [Hrq Hrest].
  rewrite serve_all_cons. simpl.
  assert (Hw : (serve rq w).2 = w).
  { rewrite serve_eq. destruct rq as [|k|c|k c|k]; try discriminate.
    - reflexivity.
    - simpl. rewrite GET_campaign_eq. reflexivity. }
  rewrite Hw. apply IH. exact Hrest.
Qed.

Lemma reads_change_nothing_witness :
  (serve_all [ReqList; ReqGet 1; ReqGet 9999; ReqList] seeded).2 = seeded.
Proof.
  apply (proj2 (proj2 (proj2 (reads_change_nothing seeded 0)))).
  reflexivity.
Defined.

(** ** The key invariant *)

(** X2. Startup and every sequence of requests keep the table well
    formed: from a well-formed table (the empty one is) the ids stay
    positive, pairwise different and in ascending order, and every row of
    a listing carries its id. *)
Theorem keys_stay_well_formed (w : World) (rqs : list Request) :
  wf_table (db w) ->
  let w' := (serve_all rqs (lifespan w).2).2 in
  wf_table (db w') /\
  NoDup (map rowid (db w')) /\
  Forall (fun r => 0 < rowid r) (db w') /\
  Forall (fun c => exists k, campaign_id c = Some k /\ 0 < k) (listing w').
Proof.
  intros Hwf w'.
  assert (Hwf' : wf_table (db w')) by apply serve_all_wf, lifespan_wf, Hwf.
  split; [exact Hwf'|]. split; [eapply above_NoDup; exact Hwf'|].
  pose proof (above_Forall _ _ Hwf') as Hpos.
  split; [exact Hpos|].
  change (listing w') with (map of_row (db w')).
  clear Hwf'. revert Hpos. generalize (db w'). intros t Hpos.
  induction Hpos as [|x t Hx _ IH]; simpl; constructor; [|exact IH].
  exists (rowid x). split; [reflexivity|exact Hx].
Qed.

Lemma keys_stay_well_formed_witness :
  let w' := (serve_all later_requests (lifespan world0).2).2 in
  wf_table (db w') /\
  NoDup (map rowid (db w')) /\
  Forall (fun r => 0 < rowid r) (db w') /\
  Forall (fun c => exists k, campaign_id c = Some k /\ 0 < k) (listing w').
Proof.
  apply (keys_stay_well_formed world0 later_requests). reflexivity.
Defined.

(** ** Exceptions *)

(** X3. A request ends in an exception only when it is a get, update or
    delete whose id has no row, and the world is then as it was: the
    exception is the 404 with detail "Not Found" when the id is a 64-bit
    integer and OverflowError when it is not.  No request ends in
    IntegrityError or InvalidRequestError, and a listing and a create
    never raise. *)
Theorem requests_raise_only_for_absent_id (rq : Request) (w : World)
    (e : Exception) :
  raised (serve rq w).1 = Some e ->
  (serve rq w).2 = w /\
  exists id,
    table_get id (db w) = None /\
    (rq = ReqGet id \/ (exists c, rq = ReqUpdate id c) \/ rq = ReqDelete id) /\
    e = if in_int64 id then HTTPException 404 "Not Found" else OverflowError.
Proof.
  rewrite serve_eq. destruct rq as [|k|c|k c|k]; simpl.
  - discriminate.
  - rewrite GET_campaign_eq. simpl.
    destruct (table_get k (db w)) eqn:E; [discriminate|].
    intros He. split; [reflexivity|]. exists k. split; [exact E|].
    split; [left; reflexivity|].
    unfold absent_reply, NotFound in He. destruct (in_int64 k);
      simpl in He; congruence.
  - rewrite POST_campaigns_eq. discriminate.
  - rewrite PUT_campaign_eq.
    destruct (table_get k (db w)) eqn:E; [discriminate|].
    intros He. split; [reflexivity|]. exists k. split; [exact E|].
    split; [right; left; exists c; reflexivity|].
    unfold absent_reply, NotFound in He. destruct (in_int64 k);
      simpl in He; congruence.
  - rewrite DELETE_campaign_eq.
    destruct (table_get k (db w)) eqn:E; [discriminate|].
    intros He. split; [reflexivity|]. exists k. split; [exact E|].
    split; [right; right; reflexivity|].
    unfold absent_reply, NotFound in He. destruct (in_int64 k);
      simpl in He; congruence.
Qed.

Lemma requests_raise_only_for_absent_id_witness :
  ((serve (ReqUpdate 9999 renamed) seeded).2 = seeded /\
   exists id,
     table_get id (db seeded) = None /\
     (ReqUpdate 9999 renamed = ReqGet id \/
      (exists c, ReqUpdate 9999 renamed = ReqUpdate id c) \/
      ReqUpdate 9999 renamed = ReqDelete id) /\
     HTTPException 404 "Not Found"
     = if in_int64 id then HTTPException 404 "Not Found"
       else OverflowError) /\
  ((serve (ReqDelete (- 2 ^ 63 - 1)) seeded).2 = seeded /\
   exists id,
     table_get id (db seeded) = None /\
     (ReqDelete (- 2 ^ 63 - 1) = ReqGet id \/
      (exists c, ReqDelete (- 2 ^ 63 - 1) = ReqUpdate id c) \/
      ReqDelete (- 2 ^ 63 - 1) = ReqDelete id) /\
     OverflowError
     = if in_int64 id then HTTPException 404 "Not Found"
       else OverflowError).
Proof.
  split.
  - apply (requests_raise_only_for_absent_id (ReqUpdate 9999 renamed)
             seeded).
    reflexivity.
  - apply (requests_raise_only_for_absent_id (ReqDelete (- 2 ^ 63 - 1))
             seeded).
    reflexivity.
Defined.

(** ** Other rows *)

(** X4. A request changes at most the row of one id: the id a create is
    given, or the id an update or a delete names.  The row stored under
    any other id, or the absence of one, is the same after the request
    as before. *)
Theorem other_rows_untouched (rq : Request) (w : World) (id : Z) :
  target rq w <> Some id ->
  table_get id (db (serve rq w).2) = table_get id (db w).
Proof.
  intros Hne. rewrite serve_eq. destruct rq as [|k|c|k c|k]; simpl in *.
  - reflexivity.
  - rewrite GET_campaign_eq. reflexivity.
  - rewrite POST_campaigns_eq in Hne |- *. simpl in *.
    apply table_get_insert_ne. simpl. congruence.
  - rewrite PUT_campaign_eq. destruct (table_get k (db w)); simpl;
      [|reflexivity].
    apply table_get_update_ne. congruence.
  - rewrite DELETE_campaign_eq. destruct (table_get k (db w)); simpl;
      [|reflexivity].
    apply table_get_delete_ne. congruence.
Qed.

Lemma other_rows_untouched_witness :
  table_get 1 (db (serve (ReqDelete 2) seeded).2) = table_get 1 (db seeded) /\
  table_get 2 (db (serve (ReqCreate renamed) seeded).2)
  = table_get 2 (db seeded).
Proof.
  split.
  - apply (other_rows_untouched (ReqDelete 2) seeded 1). discriminate.
  - apply (other_rows_untouched (ReqCreate renamed) seeded 2). discriminate.
Defined.

(** ** How requests compose *)

(** X5. The last update wins: an update that follows another update of
    the same id answers and leaves the world exactly as it would have
    alone, so repeating an update changes nothing; and an update followed
    by a delete of the id leaves the table the delete alone would. *)
Theorem update_last_write_wins (w : World) (id : Z)
    (c1 c2 : CampaignCreate) :
  PUT_campaign id c2 (PUT_campaign id c1 w).2 = PUT_campaign id c2 w /\
  PUT_campaign id c1 (PUT_campaign id c1 w).2 = PUT_campaign id c1 w /\
  DELETE_campaign id (PUT_campaign id c1 w).2 = DELETE_campaign id w.
Proof.
  assert (Hput : forall c c',
    PUT_campaign id c' (PUT_campaign id c w).2 = PUT_campaign id c' w).
  { intros c c'. rewrite (PUT_campaign_eq id c w).
    destruct (table_get id (db w)) as [r|] eqn:E; simpl; [|reflexivity].
    rewrite !PUT_campaign_eq. simpl.
    rewrite (table_get_update_eq _ _ _ _ _ E), E, table_update_update.
    unfold updated_row, with_db. simpl.
    rewrite (table_get_rowid _ _ _ E). reflexivity. }
  split; [apply Hput|]. split; [apply Hput|].
  rewrite (PUT_campaign_eq id c1 w).
  destruct (table_get id (db w)) as [r|] eqn:E; simpl; [|reflexivity].
  rewrite !DELETE_campaign_eq. simpl.
  rewrite (table_get_update_eq _ _ _ _ _ E), E, table_delete_update.
  reflexivity.
Qed.

(** X6. A create followed by a delete of the id it returned succeeds and
    leaves the table exactly as it was before the create. *)
Theorem create_then_delete_restores (w : World) (c : CampaignCreate) :
  exists r w1 k w2,
    POST_campaigns c w = (Returned 201 {| data := r |}, w1) /\
    campaign_id r = Some k /\
    DELETE_campaign k w1 = (Returned 204 tt, w2) /\
    db w2 = db w.
Proof.
  exists (of_row (created_row c w)),
    (with_db (table_insert (created_row c w) (db w)) (advance w)),
    (new_rowid (db w)).
  eexists. split; [apply POST_campaigns_eq|]. split; [reflexivity|].
  rewrite DELETE_campaign_eq. simpl.
  change (new_rowid (db w)) with (rowid (created_row c w)).
  rewrite table_get_insert_eq by apply table_get_new_rowid.
  split; [reflexivity|]. simpl.
  apply (table_delete_insert (created_row c w)), table_get_new_rowid.
Qed.

(** X7. On a well-formed table a request changes the number of rows a
    listing shows by exactly what it did: a create adds one, a delete
    that succeeded takes one away, and a listing, a get, an update and a
    delete that found nothing leave the number as it was. *)
Theorem listing_length_step (rq : Request) (w : World) :
  wf_table (db w) ->
  length (listing (serve rq w).2)
  = match rq, (serve rq w).1 with
    | ReqCreate _, _ => S (length (listing w))
    | ReqDelete _, ANone (Returned _ _) => Nat.pred (length (listing w))
    | _, _ => length (listing w)
    end.
Proof.
  intros Hwf. rewrite serve_eq. unfold listing.
  rewrite !GET_campaigns_eq. simpl. rewrite !length_map.
  destruct rq as [|k|c|k c|k]; simpl.
  - reflexivity.
  - rewrite GET_campaign_eq. simpl.
    destruct (table_get k (db w)); reflexivity.
  - rewrite POST_campaigns_eq. simpl. apply length_table_insert.
  - rewrite PUT_campaign_eq. destruct (table_get k (db w)); simpl;
      [apply length_table_update|reflexivity].
  - rewrite DELETE_campaign_eq.
    destruct (table_get k (db w)) as [r|] eqn:E; simpl; [|by_absent].
    rewrite <- (length_table_delete 0 k (db w) r Hwf E). reflexivity.
Qed.

Lemma listing_length_step_witness :
  length (listing (serve (ReqDelete 2) seeded).2) = 1%nat /\
  length (listing (serve (ReqDelete 7) seeded).2) = 2%nat /\
  length (listing (serve (ReqCreate renamed) seeded).2) = 3%nat.
Proof.
  split; [|split].
  - apply (listing_length_step (ReqDelete 2) seeded). reflexivity.
  - apply (listing_length_step (ReqDelete 7) seeded). reflexivity.
  - apply (listing_length_step (ReqCreate renamed) seeded). reflexivity.
Defined.

(** ** Startup *)

(** X8. Startup never fails, leaves a table that is not empty, and is
    idempotent: run again on its own result it changes nothing, so a
    restart does not seed a second time.  Time passes only when it
    seeds. *)
Theorem lifespan_idempotent (w : World) :
  (lifespan w).1 = inr tt /\
  db (lifespan w).2 <> [] /\
  lifespan (lifespan w).2 = (inr tt, (lifespan w).2) /\
  clock w <= clock (lifespan w).2.
Proof.
  rewrite !lifespan_eq. simpl.
  destruct (db w) as [|x t] eqn:E; simpl.
  - repeat split; try discriminate.
    pose proof (clock_advance w).
    pose proof (clock_advance (advance w)).
    pose proof (clock_advance (advance (advance w))).
    pose proof (clock_advance (advance (advance (advance w)))).
    lia.
  - rewrite E. repeat split; [discriminate|lia].
Qed.

(** ** The creation time *)

(** X9. No request changes the id or the created_at of a row it leaves
    in the table: if an id has a row before a request and a row after it,
    the two have the same id and the same created_at. *)
Theorem created_at_kept (rq : Request) (w : World) (id : Z)
    (row row' : Row) :
  table_get id (db w) = Some row ->
  table_get id (db (serve rq w).2) = Some row' ->
  rowid row' = rowid row /\ col_created_at row' = col_created_at row.
Proof.
  intros Hrow. rewrite serve_eq. destruct rq as [|k|c|k c|k]; simpl.
  - intros H. rewrite Hrow in H. injection H as <-. split; reflexivity.
  - rewrite GET_campaign_eq. simpl. intros H. rewrite Hrow in H.
    injection H as <-. split; reflexivity.
  - rewrite POST_campaigns_eq. simpl.
    rewrite table_get_insert_ne.
    + intros H. rewrite Hrow in H. injection H as <-. split; reflexivity.
    + simpl. intros ->. rewrite table_get_new_rowid in Hrow. discriminate.
  - rewrite PUT_campaign_eq.
    destruct (table_get k (db w)) as [r|] eqn:E; simpl.
    + destruct (Z.eq_dec id k) as [->|Hne].
      * rewrite (table_get_update_eq _ _ _ _ _ E). intros [= <-]. simpl.
        rewrite E in Hrow. injection Hrow as <-.
        split; [|reflexivity]. symmetry. exact (table_get_rowid _ _ _ E).
      * rewrite table_get_update_ne by exact Hne. intros H.
        rewrite Hrow in H. injection H as <-. split; reflexivity.
    + intros H. rewrite Hrow in H. injection H as <-. split; reflexivity.
  - rewrite DELETE_campaign_eq.
    destruct (table_get k (db w)) as [r|] eqn:E; simpl.
    + destruct (Z.eq_dec id k) as [->|Hne].
      * rewrite table_get_delete_eq. discriminate.
      * rewrite table_get_delete_ne by exact Hne. intros H.
        rewrite Hrow in H. injection H as <-. split; reflexivity.
    + intros H. rewrite Hrow in H. injection H as <-. split; reflexivity.
Qed.

Lemma created_at_kept_witness :
  rowid (updated_row renamed summer_launch_row) = rowid summer_launch_row /\
  col_created_at (updated_row renamed summer_launch_row)
  = col_created_at summer_launch_row.
Proof.
  apply (created_at_kept (ReqUpdate 1 renamed) seeded 1); reflexivity.
Defined.

(** ** The clock *)

Lemma serve_clock rq w :
  utc_offset (serve rq w).2 = utc_offset w /\
  match rq with
  | ReqCreate _ =>
      clock (serve rq w).2 = clock (advance w) /\
      ticks (serve rq w).2 = ticks (advance w)
  | _ =>
      clock (serve rq w).2 = clock w /\ ticks (serve rq w).2 = ticks w
  end.
Proof.
  rewrite serve_eq. destruct rq as [|k|c|k c|k]; simpl.
  - repeat split.
  - rewrite GET_campaign_eq. repeat split.
  - rewrite POST_campaigns_eq. simpl. rewrite utc_offset_advance.
    repeat split.
  - rewrite PUT_campaign_eq. destruct (table_get k (db w)); repeat split.
  - rewrite DELETE_campaign_eq. destruct (table_get k (db w)); repeat split.
Qed.

(** X10. Only a create reads the clock: a listing, a get, an update and a
    delete leave the clock and the time still to pass as they were, a
    create lets exactly one tick pass; and along any sequence of requests
    the clock never goes back. *)
Theorem only_create_reads_clock (w : World) :
  (forall rq,
     utc_offset (serve rq w).2 = utc_offset w /\
     match rq with
     | ReqCreate _ =>
         clock (serve rq w).2 = clock (advance w) /\
         ticks (serve rq w).2 = ticks (advance w)
     | _ =>
         clock (serve rq w).2 = clock w /\ ticks (serve rq w).2 = ticks w
     end) /\
  forall rqs, clock w <= clock (serve_all rqs w).2.
Proof.
  split; [intros rq; apply serve_clock|].
  intros rqs. revert w. induction rqs as [|rq rqs IH]; intros w.
  - simpl. lia.
  - rewrite serve_all_cons. simpl.
    specialize (IH (serve rq w).2).
    destruct (serve_clock rq w) as [_ Hc].
    pose proof (clock_advance w).
    destruct rq; destruct Hc as [Hc _]; lia.
Qed.

(** ** Request bodies *)

(** X11. A body whose [name] is missing or is not a string, or whose
    [due_date] is neither null nor accepted by the datetime validator, is
    rejected with a validation error before the handler runs: the table
    and the clock are untouched, and an update is rejected so even for an
    id that has no row.  A body with [due_date] null is treated exactly
    as one that leaves [due_date] out. *)
Theorem malformed_body_rejected
    (datetime_validate : json -> option datetime)
    (w : World) (id : Z) (body : gmap string json) :
  ((forall n, body !! "name"%string <> Some (JString n)) ->
   POST_campaigns_body datetime_validate body w
   = (Raised RequestValidationError, w) /\
   PUT_campaign_body datetime_validate id body w
   = (Raised RequestValidationError, w)) /\
  (forall j,
     body !! "due_date"%string = Some j ->
     j <> JNull ->
     datetime_validate j = None ->
     POST_campaigns_body datetime_validate body w
     = (Raised RequestValidationError, w) /\
     PUT_campaign_body datetime_validate id body w
     = (Raised RequestValidationError, w)) /\
  POST_campaigns_body datetime_validate
    (<[ "due_date"%string := JNull ]> body) w
  = POST_campaigns_body datetime_validate
      (delete "due_date"%string body) w /\
  PUT_campaign_body datetime_validate id
    (<[ "due_date"%string := JNull ]> body) w
  = PUT_campaign_body datetime_validate id
      (delete "due_date"%string body) w.
Proof.
  split; [|split].
  - intros Hname.
    assert (Hval : CampaignCreate_validate datetime_validate body
                   = inl RequestValidationError).
    { unfold CampaignCreate_validate.
      destruct (body !! "name"%string) as [[]|] eqn:E; try reflexivity.
      exfalso. eapply Hname. reflexivity. }
    unfold POST_campaigns_body, PUT_campaign_body. rewrite Hval.
    split; reflexivity.
  - intros j Hdue Hnull Hdv.
    assert (Hval : CampaignCreate_validate datetime_validate body
                   = inl RequestValidationError).
    { unfold CampaignCreate_validate. rewrite Hdue.
      destruct (body !! "name"%string) as [[]|]; try reflexivity.
      destruct j; try congruence; rewrite Hdv; reflexivity. }
    unfold POST_campaigns_body, PUT_campaign_body. rewrite Hval.
    split; reflexivity.
  - assert (Hval : CampaignCreate_validate datetime_validate
                     (<[ "due_date"%string := JNull ]> body)
                   = CampaignCreate_validate datetime_validate
                       (delete "due_date"%string body)).
    { unfold CampaignCreate_validate.
      rewrite lookup_insert_ne, lookup_delete_ne by discriminate.
      rewrite lookup_insert_eq, lookup_delete_eq. reflexivity. }
    unfold POST_campaigns_body, PUT_campaign_body. rewrite Hval.
    split; reflexivity.
Qed.

Lemma malformed_body_rejected_witness :
  (POST_campaigns_body sample_datetime_validate
     {[ "name"%string := JNumber 7 ]} seeded
   = (Raised RequestValidationError, seeded) /\
   PUT_campaign_body sample_datetime_validate 9999
     {[ "name"%string := JNumber 7 ]} seeded
   = (Raised RequestValidationError, seeded)) /\
  (POST_campaigns_body sample_datetime_validate
     (<[ "due_date"%string := JBool true ]>
        {[ "name"%string := JString "x" ]}) seeded
   = (Raised RequestValidationError, seeded) /\
   PUT_campaign_body sample_datetime_validate 1
     (<[ "due_date"%string := JBool true ]>
        {[ "name"%string := JString "x" ]}) seeded
   = (Raised RequestValidationError, seeded)).
Proof.
  split.
  - apply (proj1 (malformed_body_rejected sample_datetime_validate seeded
                    9999 {[ "name"%string := JNumber 7 ]})).
    intros n. vm_compute. discriminate.
  - apply (proj1 (proj2 (malformed_body_rejected sample_datetime_validate
                           seeded 1
                           (<[ "due_date"%string := JBool true ]>
                              {[ "name"%string := JString "x" ]})))
                 (JBool true)).
    + reflexivity.
    + discriminate.
    + reflexivity.
Defined.

(** ** Ids along a sequence *)

(** X12. As long as nothing is deleted, ids only go up: along a sequence
    of requests with no delete, the ids given to the created rows are
    strictly increasing, and none is below the id the next create would
    have had at the start. *)
Theorem ids_increase_without_delete (rqs : list Request) (w : World) :
  forallb (fun rq => negb (is_delete rq)) rqs = true ->
  StronglySorted Z.lt (created_ids rqs w) /\
  Forall (fun k => new_rowid (db w) <= k) (created_ids rqs w).
Proof.
  revert w. induction rqs as [|rq rqs IH]; intros w Hnd; simpl.
  - split; constructor.
  - simpl in Hnd. apply andb_prop in Hnd as [Hrq Hrest].
    apply negb_true_iff in Hrq.
    destruct (IH (serve rq w).2 Hrest) as [IH1 IH2].
    rewrite (serve_new_rowid rq w Hrq) in IH2.
    destruct (assigned rq w) as [k|] eqn:E; [|split; assumption].
    pose proof (assigned_new_rowid _ _ _ E) as Hk.
    split.
    + constructor; [exact IH1|].
      eapply Forall_impl; [exact IH2|]. simpl. intros; lia.
    + constructor; [lia|].
      eapply Forall_impl; [exact IH2|]. simpl. intros; lia.
Qed.

Lemma ids_increase_without_delete_witness :
  StronglySorted Z.lt
    (created_ids [ReqCreate renamed; ReqUpdate 3 spring_sale; ReqList;
                  ReqCreate spring_sale; ReqGet 8; ReqCreate renamed]
                 seeded) /\
  Forall (fun k => new_rowid (db seeded) <= k)
    (created_ids [ReqCreate renamed; ReqUpdate 3 spring_sale; ReqList;
                  ReqCreate spring_sale; ReqGet 8; ReqCreate renamed]
                 seeded).
Proof.
  apply (ids_increase_without_delete
           [ReqCreate renamed; ReqUpdate 3 spring_sale; ReqList;
            ReqCreate spring_sale; ReqGet 8; ReqCreate renamed] seeded).
  reflexivity.
Defined.

(** ** The seed rows *)

(** X13. Each row startup writes into an empty table is stored with a
    due_date and a created_at that are both naive: the due_date holds a
    local reading of the clock ([datetime.now()]), the created_at a UTC
    reading ([datetime.now(timezone.utc)], its offset dropped by the
    column), both taken during startup, and the instant of the due_date
    is not later than that of the created_at: the seeded campaigns are
    due by the time they exist. *)
Theorem seed_rows_due_when_created (w : World) :
  db w = [] ->
  Forall (fun r =>
            exists d,
              col_due_date r = Some d /\
              tzinfo d = None /\
              tzinfo (col_created_at r) = None /\
              wall d - utc_offset w <= wall (col_created_at r) /\
              clock w <= wall d - utc_offset w /\
              wall (col_created_at r) <= clock (lifespan w).2)
         (db (lifespan w).2).
Proof.
  intros Hdb. rewrite lifespan_eq, Hdb. simpl.
  pose proof (clock_advance w).
  pose proof (clock_advance (advance w)).
  pose proof (clock_advance (advance (advance w))).
  pose proof (clock_advance (advance (advance (advance w)))).
  apply List.Forall_cons; [|apply List.Forall_cons; [|apply List.Forall_nil]].
  all: eexists; split; [reflexivity|]; cbn [wall tzinfo col_created_at].
  all: rewrite ?utc_offset_advance; unfold timezone_utc.
  all: repeat split; lia.
Qed.

Lemma seed_rows_due_when_created_witness :
  Forall (fun r =>
            exists d,
              col_due_date r = Some d /\
              tzinfo d = None /\
              tzinfo (col_created_at r) = None /\
              wall d - utc_offset world0 <= wall (col_created_at r) /\
              clock world0 <= wall d - utc_offset world0 /\
              wall (col_created_at r) <= clock (lifespan world0).2)
         (db (lifespan world0).2).
Proof.
  apply (seed_rows_due_when_created world0). reflexivity.
Defined.

(** ** Emptying the table *)

Lemma serve_delete_db k w :
  db (serve (ReqDelete k) w).2 = table_delete k (db w) /\
  clock (serve (ReqDelete k) w).2 = clock w.
Proof.
  rewrite serve_eq. simpl. rewrite DELETE_campaign_eq.
  destruct (table_get k (db w)) eqn:E; simpl; split; try reflexivity.
  symmetry. apply table_delete_absent. exact E.
Qed.

Lemma table_delete_Forall (P : Row -> Prop) k t :
  Forall P t -> Forall (fun r => P r /\ rowid r <> k) (table_delete k t).
Proof.
  induction 1 as [|x t Hx _ IH]; simpl; [constructor|].
  destruct (rowid x =? k) eqn:E; [exact IH|].
  constructor; [split; [exact Hx|lia]|exact IH].
Qed.

Lemma delete_listed_ids ids w :
  Forall (fun r => rowid r ∈ ids) (db w) ->
  db (serve_all (map ReqDelete ids) w).2 = [] /\
  clock (serve_all (map ReqDelete ids) w).2 = clock w.
Proof.
  revert w. induction ids as [|k ids IH]; intros w Hall.
  - simpl. split; [|reflexivity].
    destruct (db w) as [|x t]; [reflexivity|].
    inversion Hall as [|? ? Hx _]; subst. inversion Hx.
  - rewrite map_cons, serve_all_cons. cbn [snd].
    destruct (serve_delete_db k w) as [Hdb Hclock].
    destruct (IH (serve (ReqDelete k) w).2) as [IH1 IH2].
    + rewrite Hdb. eapply Forall_impl;
        [apply table_delete_Forall; exact Hall|].
      simpl. intros r [Hin Hne]. apply elem_of_cons in Hin as [Heq|Hin];
        [contradiction|exact Hin].
    + split; [exact IH1|]. rewrite IH2. exact Hclock.
Qed.

(** X14. Deleting every id a table holds empties it without reading the
    clock, and a restart then seeds again: the new rows are "Summer
    Launch" under id 1 and "Black Friday" under id 2, whatever the ids
    were before. *)
Theorem delete_all_then_restart_reseeds (w : World) :
  let w1 := (serve_all (map ReqDelete (map rowid (db w))) w).2 in
  db w1 = [] /\
  listing w1 = [] /\
  clock w1 = clock w /\
  map (fun r => (rowid r, col_name r)) (db (lifespan w1).2)
  = [(1, "Summer Launch"%string); (2, "Black Friday"%string)].
Proof.
  intros w1.
  destruct (delete_listed_ids (map rowid (db w)) w) as [Hdb Hclock].
  { apply List.Forall_forall. intros r Hr.
    apply list_elem_of_In, in_map. exact Hr. }
  fold w1 in Hdb, Hclock.
  split; [exact Hdb|]. split.
  { unfold listing. rewrite GET_campaigns_eq. simpl. rewrite Hdb.
    reflexivity. }
  split; [exact Hclock|].
  rewrite lifespan_eq, Hdb. reflexivity.
Qed.
